(** * Innie: discovery and annotation of storage controllers behind a PCI root

    A shallow embedding of [src/Innie/Innie.cpp] (the [Innie] IOService).

    Model of the I/O Registry.
    - Every OSObject the code touches lives in a heap [w_heap : gmap N obj];
      a property table maps keys to heap locations, so that two entries can
      share one OSDictionary instance, and a copy made by
      [OSDictionary::withDictionary] is a new location.
    - Allocation ([OSString::withCString], [OSData::withBytes],
      [OSDictionary::withDictionary], [OSDictionary::withCapacity]) takes
      the next location; the environment says which allocation attempts
      fail (return [nullptr]).  Reference counts ([release]) are not
      modelled: they change no property.
    - The external enumeration subsystem is the environment [env]: it
      decides, as a function of the time, the value of the readiness flags
      ([IOPCIConfigured], [IOPCIResourced]), the children of the device-tree
      root "/", and the recursive service-plane enumeration below an entry.
      The structural (device-tree) plane below a root is a finite tree.
    - [IOSleep ms] advances the clock by [ms]; the trace records the sleeps
      and the calls the claims are about (root selected, bridge walked,
      device internalized, service registered).
    - A busy loop with no bound ([while (!configured) IOSleep(10)] in
      [processRoot]) is given a poll budget [spin]; a run that exhausts it
      is a run that does not return ([None]).
    - Iterator creation ([getChildIterator], [iterateOver]) and
      [OSDictionary::setObject] are modelled as succeeding; [DBGLOG] text is
      not modelled. *)

Set Warnings "-register-all".
From Stdlib Require Import ZArith String List Bool Lia FunctionalExtensionality.
From stdpp Require Import base gmap list.
Import ListNotations.
Open Scope string_scope.

(** ** Objects and the registry *)

(** OSObject kinds the code reads or writes: OSBoolean, OSData (bytes as
    integers 0..255), OSString, OSDictionary (key -> object location). *)
Inductive obj : Type :=
| OBool (b : bool)
| OData (bytes : list Z)
| OString (s : string)
| ODict (d : list (string * N)).

(** Trace events. *)
Inductive event : Type :=
| ESleep (ms : nat)
| ESelectRoot (n : N)
| EWalk (n : N)
| EInternalize (n : N)
| ERegister.

Record world : Type := mkWorld {
  w_heap : gmap N obj;                      (* OSObjects by location *)
  w_props : gmap N (list (string * N));     (* property table of each entry *)
  w_nalloc : N;                             (* next allocation attempt *)
  w_clock : nat;                            (* milliseconds *)
  w_trace : list event
}.

(** A node of the device-tree (structural) plane: its registry id and its
    children in enumeration order. *)
Inductive dtree : Type :=
| DNode (id : N) (kids : list dtree).

Definition dt_id (t : dtree) : N := match t with DNode i _ => i end.

(** The external subsystem. *)
Record env : Type := mkEnv {
  e_flag : N -> string -> nat -> bool;  (* OSBoolean property is kOSBooleanTrue at time t *)
  e_root : nat -> list dtree;           (* children of "/" in gIODTPlane at time t *)
  e_name : N -> option string;          (* getName() *)
  e_svc : N -> nat -> list N;           (* iterateOver(entry, gIOServicePlane, recursively) at time t *)
  e_alloc_fails : N -> bool             (* allocation attempt number k returns nullptr *)
}.

(** OSDictionary lookup and [setObject]: replace the value of an existing
    key in place, otherwise append the pair. *)
Fixpoint dict_get (d : list (string * N)) (k : string) : option N :=
  match d with
  | [] => None
  | (k', v) :: r => if String.eqb k k' then Some v else dict_get r k
  end.

Fixpoint dict_set (d : list (string * N)) (k : string) (v : N) : list (string * N) :=
  match d with
  | [] => [(k, v)]
  | (k', v') :: r => if String.eqb k k' then (k, v) :: r else (k', v') :: dict_set r k v
  end.

(** Modelled from the spec: the [classCode] enumeration of Innie.hpp, which
    is not under src/.  The spec names the SATA, NVMe and RAID controller
    codes and the PCI-to-PCI bridge code; the values are the PCI
    class/subclass/programming-interface codes of those device kinds. *)
Definition SATADevice : Z := 0x010601.
Definition NVMeDevice : Z := 0x010802.
Definition RAIDDevice : Z := 0x010400.
Definition PCIBridge : Z := 0x060400.

(** [*(uint32_t * )codeData->getBytesNoCopy()]: the first four bytes,
    little-endian (a blob shorter than four bytes is read as zero-padded). *)
Definition le32 (b : list Z) : Z :=
  let g i := nth i b 0%Z in
  (g 0%nat + 256 * g 1%nat + 65536 * g 2%nat + 16777216 * g 3%nat)%Z.

(** [strncmp("PC", name, 2) == 0] for a non-null [name]. *)
Definition is_pc_name (nm : option string) : bool :=
  match nm with
  | Some s => String.prefix "PC" s
  | None => false
  end.

Definition ceiling : N := 0x10000000.

Definition PIL : string := "Physical Interconnect Location".

(** ** A state monad with non-return *)

Definition M (A : Type) : Type := world -> option (A * world).

Definition ret {A} (a : A) : M A := fun w => Some (a, w).

Definition bind {A B} (m : M A) (k : A -> M B) : M B :=
  fun w => match m w with Some (a, w') => k a w' | None => None end.

Definition diverge {A} : M A := fun _ => None.

Notation "'do' x <- m ; k" := (bind m (fun x => k))
  (at level 200, x name, m at level 100, k at level 200).

Section Innie.

Variable E : env.

Definition log (e : event) : M unit :=
  fun w => Some (tt, mkWorld (w_heap w) (w_props w) (w_nalloc w) (w_clock w) (w_trace w ++ [e])).

(** [IOSleep(ms)] *)
Definition sleep (ms : nat) : M unit :=
  fun w => Some (tt, mkWorld (w_heap w) (w_props w) (w_nalloc w) (w_clock w + ms) (w_trace w ++ [ESleep ms])).

Definition now : M nat := fun w => Some (w_clock w, w).

(** [OSDynamicCast(OSBoolean, entry->getProperty(key)) == kOSBooleanTrue] *)
Definition read_flag (n : N) (key : string) : M bool :=
  fun w => Some (e_flag E n key (w_clock w), w).

Definition props_of (w : world) (n : N) : list (string * N) :=
  match w_props w !! n with Some t => t | None => [] end.

(** [entry->getProperty(key)] *)
Definition getProperty (n : N) (key : string) : M (option N) :=
  fun w => Some (dict_get (props_of w n) key, w).

(** [entry->setProperty(key, obj)] *)
Definition setProperty (n : N) (key : string) (l : N) : M unit :=
  fun w => Some (tt, mkWorld (w_heap w) (<[n := dict_set (props_of w n) key l]> (w_props w))
                       (w_nalloc w) (w_clock w) (w_trace w)).

(** Allocation of a new object: [None] is [nullptr]. *)
Definition alloc (o : obj) : M (option N) :=
  fun w =>
    let k := w_nalloc w in
    if e_alloc_fails E k
    then Some (None, mkWorld (w_heap w) (w_props w) (k + 1)%N (w_clock w) (w_trace w))
    else Some (Some k, mkWorld (<[k := o]> (w_heap w)) (w_props w) (k + 1)%N (w_clock w) (w_trace w)).

(** [OSDynamicCast(OSDictionary, obj)] and [OSDynamicCast(OSData, obj)] *)
Definition as_dict (l : N) : M (option (list (string * N))) :=
  fun w => Some (match w_heap w !! l with Some (ODict d) => Some d | _ => None end, w).

Definition as_data (l : N) : M (option (list Z)) :=
  fun w => Some (match w_heap w !! l with Some (OData b) => Some b | _ => None end, w).

(** [dict->setObject(key, obj)] on the dictionary at location [l]. *)
Definition dict_setObject (l : N) (key : string) (v : N) : M unit :=
  fun w => Some (tt,
    match w_heap w !! l with
    | Some (ODict d) => mkWorld (<[l := ODict (dict_set d key v)]> (w_heap w)) (w_props w)
                                (w_nalloc w) (w_clock w) (w_trace w)
    | _ => w
    end).

(** [Innie::setBuiltIn] *)
Definition setBuiltIn (n : N) : M unit :=
  do o <- alloc (OData [1%Z]);
  match o with
  | Some l => setProperty n "built-in" l
  | None => ret tt
  end.

(** [Innie::updateOtherProperties] *)
Definition updateOtherProperties (n : N) : M unit :=
  do internal <- alloc (OString "Internal");
  do internalIcon <- alloc (OString "Internal.icns");
  match internal, internalIcon with
  | Some li, Some lic =>
      do _ <- setProperty n PIL li;
      do icon <- getProperty n "IOMediaIcon";
      do _ <- match icon with
              | Some l =>
                  do d <- as_dict l;
                  match d with
                  | Some d =>
                      do c <- alloc (ODict d);            (* OSDictionary::withDictionary *)
                      match c with
                      | Some lc =>
                          do _ <- dict_setObject lc "IOBundleResourceFile" lic;
                          setProperty n "IOMediaIcon" lc
                      | None => ret tt
                      end
                  | None => ret tt
                  end
              | None => ret tt
              end;
      do proto <- getProperty n "Protocol Characteristics";
      do _ <- match proto with
              | Some l =>
                  do d <- as_dict l;
                  match d with
                  | Some d =>
                      do c <- alloc (ODict d);            (* OSDictionary::withDictionary *)
                      match c with
                      | Some lc =>
                          do _ <- dict_setObject lc PIL li;
                          setProperty n "Protocol Characteristics" lc
                      | None => ret tt
                      end
                  | None => ret tt
                  end
              | None =>
                  do c <- alloc (ODict []);               (* OSDictionary::withCapacity(1) *)
                  match c with
                  | Some lc =>
                      do _ <- dict_setObject lc PIL li;
                      setProperty n "Protocol Characteristics" lc
                  | None => ret tt
                  end
              end;
      setBuiltIn n
  | _, _ => ret tt
  end.

(** The bounded readiness loops
      [int timeout = T;
       while (flag != kOSBooleanTrue && timeout-- > 0) IOSleep(10);]
    [wait_flag n key k] runs the loop with [timeout == k] and returns the
    final value of [timeout]: [k] when the flag is seen at this check, [-1]
    when the check fails with [timeout == 0]. *)
Fixpoint wait_flag (n : N) (key : string) (k : nat) : M Z :=
  do b <- read_flag n key;
  if b then ret (Z.of_nat k)
  else match k with
       | O => ret (-1)%Z
       | S k' => do _ <- sleep 10; wait_flag n key k'
       end.

(** [while (flag != kOSBooleanTrue) IOSleep(10);] with no bound: after
    [spin] failed polls the model gives up ([None]: the call never returns). *)
Fixpoint wait_forever (spin : nat) (n : N) (key : string) : M unit :=
  do b <- read_flag n key;
  if b then ret tt
  else match spin with
       | O => diverge
       | S s => do _ <- sleep 10; wait_forever s n key
       end.

(** The service-plane pass body of [internalizeDevice]:
    [updateOtherProperties] on every enumerated entry other than [entry]. *)
Fixpoint update_drivers (entry : N) (ds : list N) : M unit :=
  match ds with
  | [] => ret tt
  | d :: r =>
      do _ <- (if N.eqb d entry then ret tt else updateOtherProperties d);
      update_drivers entry r
  end.

Definition service_plane (n : N) : M (list N) :=
  fun w => Some (e_svc E n (w_clock w), w).

(** One iteration of [for (int pass = 0; pass < 3; pass++)]. *)
Definition pass_body (n : N) (pass : nat) : M unit :=
  do _ <- updateOtherProperties n;
  do ds <- service_plane n;
  do _ <- update_drivers n ds;
  if Nat.ltb pass 2 then sleep 100 else ret tt.

(** The loop from [pass] with [rem] iterations left ([rem = 3 - pass]). *)
Fixpoint pass_loop (n : N) (rem pass : nat) : M unit :=
  match rem with
  | O => ret tt
  | S r => do _ <- pass_body n pass; pass_loop n r (S pass)
  end.

(** [Innie::internalizeDevice] *)
Definition internalizeDevice (n : N) : M unit :=
  do _ <- log (EInternalize n);
  do _ <- setBuiltIn n;
  do timeout <- wait_flag n "IOPCIResourced" 2000;
  if (timeout <=? 0)%Z then ret tt
  else pass_loop n 3 0.

(** [childEntry->getProperty("class-code")] cast to OSData, read as a
    [uint32_t]; [None] when absent or not an OSData. *)
Definition read_class_code (n : N) : M (option Z) :=
  do p <- getProperty n "class-code";
  match p with
  | Some l =>
      do d <- as_data l;
      ret (match d with Some b => Some (le32 b) | None => None end)
  | None => ret None
  end.

Definition is_storage (code : Z) : bool :=
  Z.eqb code SATADevice || Z.eqb code NVMeDevice || Z.eqb code RAIDDevice.

(** [Innie::recurseBridge] *)
Fixpoint recurseBridge (t : dtree) : M unit :=
  match t with
  | DNode id kids =>
      do _ <- log (EWalk id);
      (fix walk (ks : list dtree) : M unit :=
         match ks with
         | [] => ret tt
         | c :: cs =>
             do code <- read_class_code (dt_id c);
             do _ <- match code with
                     | Some k =>
                         if is_storage k then internalizeDevice (dt_id c)
                         else if Z.eqb k PCIBridge then
                           do timeout <- wait_flag (dt_id c) "IOPCIConfigured" 1000;
                           if (0 <? timeout)%Z then recurseBridge c else ret tt
                         else ret tt
                     | None => ret tt
                     end;
             walk cs
         end) kids
  end.

Definition root_children : M (list dtree) :=
  fun w => Some (e_root E (w_clock w), w).

(** The inner [while] of [processRoot] over the children of "/"; returns
    the new [(ready, found)]. *)
Fixpoint scan_root (spin : nat) (ready found : bool) (ks : list dtree) : M (bool * bool) :=
  match ks with
  | [] => ret (ready, found)
  | c :: cs =>
      if is_pc_name (e_name E (dt_id c)) then
        if ready then
          do _ <- log (ESelectRoot (dt_id c));
          do _ <- wait_forever spin (dt_id c) "IOPCIConfigured";
          do _ <- recurseBridge c;
          scan_root spin ready true cs
        else
          do _ <- sleep 1000;     (* Wait for other roots *)
          ret (true, found)       (* ready = true; break; *)
      else scan_root spin ready found cs
  end.

(** The [do { ... } while (repeat++ < 0x10000000 && !found)] loop;
    [fuel] only makes the recursion structural: [processRoot] gives it as
    many iterations as the ceiling allows. *)
Fixpoint root_loop (spin fuel : nat) (repeat : N) (ready found : bool) : M unit :=
  do ks <- root_children;
  do rf <- scan_root spin ready found ks;
  if (N.ltb repeat ceiling && negb (snd rf))%bool then
    match fuel with
    | O => ret tt
    | S f => root_loop spin f (N.succ repeat) (fst rf) (snd rf)
    end
  else ret tt.

(** [Innie::processRoot] ("/" always exists in gIODTPlane). *)
Definition processRoot (spin : nat) : M unit :=
  root_loop spin (N.to_nat ceiling) 0 false false.

(** [Innie::start]: [super_ok] is the result of [IOService::start]. *)
Definition start (spin : nat) (super_ok : bool) : M bool :=
  if super_ok then
    do _ <- processRoot spin;
    do _ <- log ERegister;            (* IOService::registerService() *)
    ret true
  else ret false.

(** ** Auxiliary views of the code, for the statements *)

(** The class code a [visit] reads from the world. *)
Definition class_code_of (w : world) (n : N) : option Z :=
  match dict_get (props_of w n) "class-code" with
  | Some l => match w_heap w !! l with Some (OData b) => Some (le32 b) | _ => None end
  | None => None
  end.

(** The loop body of [recurseBridge] for one child, and the loop itself
    (the inner [fix] of [recurseBridge], named). *)
Definition visit (c : dtree) : M unit :=
  do code <- read_class_code (dt_id c);
  match code with
  | Some k =>
      if is_storage k then internalizeDevice (dt_id c)
      else if Z.eqb k PCIBridge then
        do timeout <- wait_flag (dt_id c) "IOPCIConfigured" 1000;
        if (0 <? timeout)%Z then recurseBridge c else ret tt
      else ret tt
  | None => ret tt
  end.

Fixpoint walk_list (ks : list dtree) : M unit :=
  match ks with
  | [] => ret tt
  | c :: cs => do _ <- visit c; walk_list cs
  end.

(** The Annotator's passes as the spec words them: update the node, then
    every service-plane entry other than the node; three passes with a
    100ms pause between consecutive passes. *)
Fixpoint update_each (ds : list N) : M unit :=
  match ds with
  | [] => ret tt
  | d :: r => do _ <- updateOtherProperties d; update_each r
  end.

Definition spec_pass (n : N) : M unit :=
  do _ <- updateOtherProperties n;
  do ds <- service_plane n;
  update_each (List.filter (fun d => negb (N.eqb d n)) ds).

Definition spec_three_passes (n : N) : M unit :=
  do _ <- spec_pass n;
  do _ <- sleep 100;
  do _ <- spec_pass n;
  do _ <- sleep 100;
  spec_pass n.

End Innie.

(** The world after [j] polls of 10ms that saw the flag unset. *)
Definition sleeps (w : world) (j : nat) : world :=
  mkWorld (w_heap w) (w_props w) (w_nalloc w) (w_clock w + 10 * j)
          (w_trace w ++ repeat (ESleep 10) j).

(** The world right after the first two statements of [internalizeDevice]
    (log, then [setBuiltIn] with a successful allocation). *)
Definition builtin_set (n : N) (w : world) : world :=
  mkWorld (<[w_nalloc w := OData [1%Z]]> (w_heap w))
          (<[n := dict_set (props_of w n) "built-in" (w_nalloc w)]> (w_props w))
          (w_nalloc w + 1)%N (w_clock w) (w_trace w ++ [EInternalize n]).

(** ** The blocks of [updateOtherProperties], named

    [icon_update] is the [IOMediaIcon] block, [proto_update] the
    [Protocol Characteristics] block; [updateOtherProperties] is these
    blocks in sequence (lemma [updateOtherProperties_blocks]). *)
Section Blocks.

Variable E : env.

Definition icon_update (n lic : N) : M unit :=
  do icon <- getProperty n "IOMediaIcon";
  match icon with
  | Some l =>
      do d <- as_dict l;
      match d with
      | Some d =>
          do c <- alloc E (ODict d);
          match c with
          | Some lc =>
              do _ <- dict_setObject lc "IOBundleResourceFile" lic;
              setProperty n "IOMediaIcon" lc
          | None => ret tt
          end
      | None => ret tt
      end
  | None => ret tt
  end.

Definition proto_update (n li : N) : M unit :=
  do proto <- getProperty n "Protocol Characteristics";
  match proto with
  | Some l =>
      do d <- as_dict l;
      match d with
      | Some d =>
          do c <- alloc E (ODict d);
          match c with
          | Some lc =>
              do _ <- dict_setObject lc PIL li;
              setProperty n "Protocol Characteristics" lc
          | None => ret tt
          end
      | None => ret tt
      end
  | None =>
      do c <- alloc E (ODict []);
      match c with
      | Some lc =>
          do _ <- dict_setObject lc PIL li;
          setProperty n "Protocol Characteristics" lc
      | None => ret tt
      end
  end.

(** Closed forms of the blocks: the world each block leaves. *)
Definition bump (w : world) : world :=
  mkWorld (w_heap w) (w_props w) (w_nalloc w + 1)%N (w_clock w) (w_trace w).

Definition put_obj (o : obj) (w : world) : world :=
  mkWorld (<[w_nalloc w := o]> (w_heap w)) (w_props w) (w_nalloc w + 1)%N (w_clock w) (w_trace w).

Definition put_prop (n : N) (k : string) (l : N) (w : world) : world :=
  mkWorld (w_heap w) (<[n := dict_set (props_of w n) k l]> (w_props w)) (w_nalloc w) (w_clock w) (w_trace w).

Definition alloc_after (o : obj) (w : world) : world :=
  if e_alloc_fails E (w_nalloc w) then bump w else put_obj o w.

Definition icon_after (n lic : N) (w : world) : world :=
  match dict_get (props_of w n) "IOMediaIcon" with
  | Some l =>
      match w_heap w !! l with
      | Some (ODict d) =>
          if e_alloc_fails E (w_nalloc w) then bump w
          else put_prop n "IOMediaIcon" (w_nalloc w)
                 (put_obj (ODict (dict_set d "IOBundleResourceFile" lic)) w)
      | _ => w
      end
  | None => w
  end.

Definition proto_after (n li : N) (w : world) : world :=
  match dict_get (props_of w n) "Protocol Characteristics" with
  | Some l =>
      match w_heap w !! l with
      | Some (ODict d) =>
          if e_alloc_fails E (w_nalloc w) then bump w
          else put_prop n "Protocol Characteristics" (w_nalloc w) (put_obj (ODict (dict_set d PIL li)) w)
      | _ => w
      end
  | None =>
      if e_alloc_fails E (w_nalloc w) then bump w
      else put_prop n "Protocol Characteristics" (w_nalloc w) (put_obj (ODict [(PIL, li)]) w)
  end.

Definition builtin_after (n : N) (w : world) : world :=
  if e_alloc_fails E (w_nalloc w) then bump w
  else put_prop n "built-in" (w_nalloc w) (put_obj (OData [1%Z]) w).

Definition update_after (n : N) (w : world) : world :=
  let a := w_nalloc w in
  let w2 := alloc_after (OString "Internal.icns") (alloc_after (OString "Internal") w) in
  if e_alloc_fails E a || e_alloc_fails E (a + 1) then w2
  else builtin_after n (proto_after n a (icon_after n (a + 1) (put_prop n PIL a w2))).

End Blocks.

(** Heap discipline: no object at or above the allocation counter, and a
    world [w'] that keeps every object of [w] below [w]'s counter. *)
Definition fresh (w : world) : Prop :=
  forall l, (w_nalloc w <= l)%N -> w_heap w !! l = None.

Definition extends (w w' : world) : Prop :=
  (w_nalloc w <= w_nalloc w')%N /\
  forall l, (l < w_nalloc w)%N -> w_heap w' !! l = w_heap w !! l.

(** Every reference held by an object or a property table points below the
    allocation counter. *)
Definition refs_below (o : obj) (b : N) : Prop :=
  match o with
  | ODict d => forall k v, In (k, v) d -> (v < b)%N
  | _ => True
  end.

Definition wf (w : world) : Prop :=
  fresh w /\
  (forall l o, w_heap w !! l = Some o -> refs_below o (w_nalloc w)) /\
  (forall m k v, In (k, v) (props_of w m) -> (v < w_nalloc w)%N).

(** ** Property state by value

    A property's value is the object it references, resolved through the
    heap down to depth [F]; two worlds have the same property state when
    every node's table resolves to the same values at every depth. *)
Inductive rval : Type :=
| RBool (b : bool)
| RData (bytes : list Z)
| RString (s : string)
| RDict (d : list (string * option rval)).

Fixpoint resolve (F : nat) (h : gmap N obj) (l : N) : option rval :=
  match F with
  | O => None
  | S F' =>
      match h !! l with
      | Some (OBool b) => Some (RBool b)
      | Some (OData bs) => Some (RData bs)
      | Some (OString s) => Some (RString s)
      | Some (ODict d) => Some (RDict (map (fun kv => (fst kv, resolve F' h (snd kv))) d))
      | None => None
      end
  end.

Definition rview (F : nat) (h : gmap N obj) (d : list (string * N)) : list (string * option rval) :=
  map (fun kv => (fst kv, resolve F h (snd kv))) d.

Definition pview (F : nat) (w : world) (m : N) : list (string * option rval) :=
  rview F (w_heap w) (props_of w m).

(** [dict_get] and [dict_set] on resolved tables. *)
Fixpoint aget {V} (d : list (string * V)) (k : string) : option V :=
  match d with
  | [] => None
  | (k', v) :: r => if String.eqb k k' then Some v else aget r k
  end.

Fixpoint aset {V} (d : list (string * V)) (k : string) (v : V) : list (string * V) :=
  match d with
  | [] => [(k, v)]
  | (k', v') :: r => if String.eqb k k' then (k, v) :: r else (k', v') :: aset r k v
  end.

Definition rstr (F : nat) (s : string) : option rval :=
  match F with O => None | S _ => Some (RString s) end.

Definition rdata (F : nat) (b : list Z) : option rval :=
  match F with O => None | S _ => Some (RData b) end.

Definition rdict (F : nat) (d : list (string * option rval)) : option rval :=
  match F with O => None | S _ => Some (RDict d) end.

(** The effect of [setBuiltIn] and of [updateOtherProperties] (all
    allocations succeeding) on the resolved table of the node. *)
Definition builtin_view (F : nat) (v : list (string * option rval)) : list (string * option rval) :=
  aset v "built-in" (rdata F [1%Z]).

Definition icon_view (F : nat) (v : list (string * option rval)) : list (string * option rval) :=
  match aget v "IOMediaIcon" with
  | Some (Some (RDict e)) =>
      aset v "IOMediaIcon" (Some (RDict (aset e "IOBundleResourceFile" (rstr (pred F) "Internal.icns"))))
  | _ => v
  end.

Definition proto_view (F : nat) (v : list (string * option rval)) : list (string * option rval) :=
  match aget v "Protocol Characteristics" with
  | Some (Some (RDict e)) =>
      aset v "Protocol Characteristics" (Some (RDict (aset e PIL (rstr (pred F) "Internal"))))
  | Some _ => v
  | None => aset v "Protocol Characteristics" (rdict F [(PIL, rstr (pred F) "Internal")])
  end.

Definition update_view (F : nat) (v : list (string * option rval)) : list (string * option rval) :=
  builtin_view F (proto_view F (icon_view F (aset v PIL (rstr F "Internal")))).

(** The effect of one [internalizeDevice] on property state by value when
    every allocation succeeds and the node's [IOPCIResourced] flag and
    service-plane enumeration do not change over time. *)
Definition intern_view (E : env) (n : N) (F : nat) (m : N) (v : list (string * option rval))
  : list (string * option rval) :=
  if e_flag E n "IOPCIResourced" 0 then
    (if N.eqb m n then update_view F (builtin_view F v)
     else if existsb (N.eqb m) (List.filter (fun d => negb (N.eqb d n)) (e_svc E n 0))
     then update_view F v else v)
  else (if N.eqb m n then builtin_view F v else v).

(** A decision procedure for [wf] on a concrete world. *)
Definition refs_check (o : obj) (b : N) : bool :=
  match o with
  | ODict d => forallb (fun kv => N.ltb (snd kv) b) d
  | _ => true
  end.

Definition wf_check (w : world) : bool :=
  forallb (fun lo => N.ltb (fst lo) (w_nalloc w) && refs_check (snd lo) (w_nalloc w))
          (map_to_list (w_heap w)) &&
  forallb (fun mt => forallb (fun kv => N.ltb (snd kv) (w_nalloc w)) (snd mt))
          (map_to_list (w_props w)).

(** The environment [E] with allocation number [j] (and only it) failing. *)
Definition fail_at (E : env) (j : N) : env :=
  mkEnv (e_flag E) (e_root E) (e_name E) (e_svc E) (fun k => N.eqb k j).

(** Two worlds that agree on the allocation counter, on the objects below
    [b], on every node other than [n], and on every key of [n] except
    possibly [K]. *)
Definition agree (K : option string) (n b : N) (u v : world) : Prop :=
  w_nalloc u = w_nalloc v /\
  (forall l, (l < b)%N -> w_heap u !! l = w_heap v !! l) /\
  (forall m, m <> n -> props_of u m = props_of v m) /\
  (forall k, K <> Some k -> dict_get (props_of u n) k = dict_get (props_of v n) k).

(** The bus roots selected in a trace, in order. *)
Fixpoint selects (tr : list event) : list N :=
  match tr with
  | [] => []
  | ESelectRoot n :: r => n :: selects r
  | _ :: r => selects r
  end.

(** A computation that always returns and selects no bus root. *)
Definition nosel {A} (m : M A) : Prop :=
  forall w, exists a w' s, m w = Some (a, w') /\ w_trace w' = (w_trace w ++ s)%list /\ selects s = [].

(** A child of "/" whose name carries the bus-root prefix. *)
Definition pc_root (E : env) (c : dtree) : bool := is_pc_name (e_name E (dt_id c)).

(** ** A sample registry (the end-to-end scenario of the spec)

    "/" has children [PC00] (id 1) and [PC01] (id 2); [PC01] has an NVMe
    controller (3) and a bridge (4) with a SATA controller (5) below it.
    [IOPCIConfigured] becomes true at time [cfg_at] and [IOPCIResourced]
    at time [res_at] (on every entry); the service plane
    below an entry [n] enumerates [n] itself and one driver [n + 100]. *)
Definition bytes_of (c : Z) : list Z :=
  [Z.land c 255; Z.land (Z.shiftr c 8) 255; Z.land (Z.shiftr c 16) 255; Z.land (Z.shiftr c 24) 255].

Definition sample_roots : list dtree :=
  [DNode 1 []; DNode 2 [DNode 3 []; DNode 4 [DNode 5 []]]].

Definition sample_env (cfg_at res_at : nat) (roots : list dtree) : env :=
  mkEnv (fun _ key t => Nat.leb (if String.eqb key "IOPCIResourced" then res_at else cfg_at) t)
        (fun _ => roots)
        (fun n => Some (if N.eqb n 1 then "PC00" else if N.eqb n 2 then "PC01" else "pci-device"))
        (fun n _ => [n; (n + 100)%N]) (fun _ => false).

Definition sample_world : world :=
  mkWorld (<[100%N := OData (bytes_of NVMeDevice)]> (<[101%N := OData (bytes_of PCIBridge)]>
             (<[102%N := OData (bytes_of SATADevice)]> (<[103%N := OString "0x010802"]> ∅))))
          (<[3%N := [("class-code", 100%N)]]> (<[4%N := [("class-code", 101%N)]]>
             (<[5%N := [("class-code", 102%N)]]> (<[6%N := [("class-code", 103%N)]]> ∅))))
          1000 0 [].

(** The sample registry with empty service-plane enumerations. *)
Definition sample_env_nosvc : env :=
  mkEnv (e_flag (sample_env 0 0 sample_roots)) (e_root (sample_env 0 0 sample_roots))
        (e_name (sample_env 0 0 sample_roots)) (fun _ _ => []) (fun _ => false).

(** Node 7 with an icon dictionary and a protocol-characteristics
    property that is a string, not a dictionary. *)
Definition icon_world : world :=
  mkWorld (<[200%N := ODict [("IOBundleResourceFile", 201%N); ("IOBundleIdentifier", 202%N)]]>
             (<[201%N := OString "External.icns"]> (<[202%N := OString "com.example.disk"]>
             (<[203%N := OString "SATA"]> ∅))))
          (<[7%N := [("IOMediaIcon", 200%N); ("Protocol Characteristics", 203%N)]]> ∅)
          300 0 [].

(** A device tree and all its descendants, in depth-first order, and the
    strict descendants of a node. *)
Fixpoint dt_subtrees (t : dtree) : list dtree :=
  match t with DNode _ kids => t :: flat_map dt_subtrees kids end.

Definition dt_kids (t : dtree) : list dtree := match t with DNode _ kids => kids end.

Definition strict_subtrees (t : dtree) : list dtree := flat_map dt_subtrees (dt_kids t).

(** The nodes a walk over the trees [ks] may write: the nodes of [ks] and
    their descendants, and every node some service-plane enumeration lists. *)
Definition walk_touch (E : env) (ks : list dtree) (x : N) : Prop :=
  (exists c, In c (flat_map dt_subtrees ks) /\ dt_id c = x) \/ (exists y t, In x (e_svc E y t)).

(** The nodes the annotator run on [n] may write. *)
Definition annot_touch (E : env) (n : N) (x : N) : Prop := x = n \/ exists t, In x (e_svc E n t).

(** The nodes [processRoot] may write: the strict descendants of the
    children of "/" and every node a service-plane enumeration lists. *)
Definition root_touch (E : env) (x : N) : Prop :=
  (exists t c c', In c (e_root E t) /\ In c' (strict_subtrees c) /\ dt_id c' = x) \/
  (exists y t, In x (e_svc E y t)).

(** A computation that, whenever it returns, keeps every object below the
    allocation counter and writes the properties of nodes in [S] only. *)
Definition frame {A} (S : N -> Prop) (m : M A) : Prop :=
  forall w a w', m w = Some (a, w') -> extends w w' /\ forall x, ~ S x -> props_of w' x = props_of w x.

(** Heap, property tables and allocation counter all unchanged. *)
Definition unchanged (w w' : world) : Prop :=
  w_heap w' = w_heap w /\ w_props w' = w_props w /\ w_nalloc w' = w_nalloc w.

(** No node of [cs] carries a storage class code in [w]. *)
Definition no_storage (w : world) (cs : list dtree) : Prop :=
  forall c, In c cs -> forall k, class_code_of w (dt_id c) = Some k -> is_storage k = false.

(** The devices annotated in a trace, in order. *)
Fixpoint internalized (tr : list event) : list N :=
  match tr with
  | [] => []
  | EInternalize n :: r => n :: internalized r
  | _ :: r => internalized r
  end.

(** The storage devices below [t] reached through bridges, in depth-first
    order, by the class codes of [w]. *)
Fixpoint dfs_storage (w : world) (t : dtree) : list N :=
  match t with
  | DNode _ kids =>
      flat_map (fun c => match class_code_of w (dt_id c) with
                         | Some k => if is_storage k then [dt_id c]
                                     else if Z.eqb k PCIBridge then dfs_storage w c else []
                         | None => []
                         end) kids
  end.

Definition dfs_visit (w : world) (c : dtree) : list N :=
  match class_code_of w (dt_id c) with
  | Some k => if is_storage k then [dt_id c] else if Z.eqb k PCIBridge then dfs_storage w c else []
  | None => []
  end.

(** Every bridge among [cs] (by the class codes of [w]) is configured at all times. *)
Definition bridges_ready (E : env) (w : world) (cs : list dtree) : Prop :=
  forall c, In c cs -> class_code_of w (dt_id c) = Some PCIBridge ->
  forall t, e_flag E (dt_id c) "IOPCIConfigured" t = true.

(** [w'] keeps the objects of [w] and every node's class-code reference. *)
Definition keeps_codes (w w' : world) : Prop :=
  extends w w' /\ forall m, dict_get (props_of w' m) "class-code" = dict_get (props_of w m) "class-code".

(** ... and annotates no device in between. *)
Definition no_annot (w w' : world) : Prop :=
  keeps_codes w w' /\ exists s, w_trace w' = (w_trace w ++ s)%list /\ internalized s = [].

(** [R] relates the world before and after every run of [m] that returns. *)
Definition holds {A} (R : world -> world -> Prop) (m : M A) : Prop :=
  forall w a w', m w = Some (a, w') -> R w w'.

(** A computation that always returns. *)
Definition total {A} (m : M A) : Prop := forall w, exists a w', m w = Some (a, w').

(** Induction on device trees, with the hypothesis on every child. *)
Fixpoint dtree_ind' (P : dtree -> Prop)
    (f : forall id kids, Forall P kids -> P (DNode id kids)) (t : dtree) : P t :=
  match t with
  | DNode id kids =>
      f id kids ((fix go (l : list dtree) : Forall P l :=
                    match l with
                    | [] => @List.Forall_nil _ P
                    | x :: r => @List.Forall_cons _ P x r (dtree_ind' P f x) (go r)
                    end) kids)
  end.

(** * Proofs *)

(** ** The bounded readiness loops *)

Lemma sleeps_0 (w : world) : sleeps w 0 = w.
Proof.
  destruct w; unfold sleeps; simpl.
  by rewrite Nat.add_0_r, app_nil_r.
Qed.

Lemma sleeps_S (w : world) (j : nat) :
  sleeps (mkWorld (w_heap w) (w_props w) (w_nalloc w) (w_clock w + 10)
                  (w_trace w ++ [ESleep 10])) j = sleeps w (S j).
Proof.
  unfold sleeps; simpl.
  f_equal; [lia | by rewrite <- app_assoc].
Qed.

(** The flag is first seen at poll [j]. *)
Lemma wait_flag_seen (E : env) (n : N) (key : string) (k j : nat) (w : world) :
  j <= k ->
  (forall i, i < j -> e_flag E n key (w_clock w + 10 * i) = false) ->
  e_flag E n key (w_clock w + 10 * j) = true ->
  wait_flag E n key k w = Some (Z.of_nat (k - j), sleeps w j).
Proof.
  revert k w; induction j as [|j IH]; intros k w Hjk Hbefore Hat.
  - rewrite Nat.add_0_r in Hat. rewrite sleeps_0, Nat.sub_0_r.
    destruct k; cbn; unfold bind, read_flag, ret; by rewrite Hat.
  - destruct k as [|k]; [lia|].
    cbn; unfold bind, read_flag, ret, sleep.
    assert (H0 := Hbefore 0 ltac:(lia)). rewrite Nat.mul_0_r, Nat.add_0_r in H0.
    rewrite H0.
    rewrite (IH k).
    + by rewrite sleeps_S.
    + lia.
    + intros i Hi. cbn [w_clock].
      replace (w_clock w + 10 + 10 * i) with (w_clock w + 10 * S i) by lia.
      apply Hbefore; lia.
    + cbn [w_clock].
      by replace (w_clock w + 10 + 10 * j) with (w_clock w + 10 * S j) by lia.
Qed.

(** The flag is never seen: the loop ends with [timeout == -1]. *)
Lemma wait_flag_timeout (E : env) (n : N) (key : string) (k : nat) (w : world) :
  (forall i, i <= k -> e_flag E n key (w_clock w + 10 * i) = false) ->
  wait_flag E n key k w = Some ((-1)%Z, sleeps w k).
Proof.
  revert w; induction k as [|k IH]; intros w Hnever.
  - cbn; unfold bind, read_flag, ret.
    assert (H0 := Hnever 0 ltac:(lia)). rewrite Nat.mul_0_r, Nat.add_0_r in H0.
    by rewrite H0, sleeps_0.
  - cbn; unfold bind, read_flag, ret, sleep.
    assert (H0 := Hnever 0 ltac:(lia)). rewrite Nat.mul_0_r, Nat.add_0_r in H0.
    rewrite H0, IH.
    + by rewrite sleeps_S.
    + intros i Hi. cbn [w_clock].
      replace (w_clock w + 10 + 10 * i) with (w_clock w + 10 * S i) by lia.
      apply Hnever; lia.
Qed.

(** Every run of the loop is one of the two. *)
Lemma wait_flag_cases (E : env) (n : N) (key : string) (k : nat) (w : world) :
  (exists j, j <= k /\ (forall i, i < j -> e_flag E n key (w_clock w + 10 * i) = false) /\
             e_flag E n key (w_clock w + 10 * j) = true /\
             wait_flag E n key k w = Some (Z.of_nat (k - j), sleeps w j)) \/
  ((forall i, i <= k -> e_flag E n key (w_clock w + 10 * i) = false) /\
   wait_flag E n key k w = Some ((-1)%Z, sleeps w k)).
Proof.
  destruct (e_flag E n key (w_clock w + 10 * 0)) eqn:H0.
  - left. exists 0. split; [lia|]. split; [intros; lia|]. split; [done|].
    apply wait_flag_seen; [lia | intros; lia | done].
  - revert w H0; induction k as [|k IH]; intros w H0.
    + right. split.
      * intros i Hi. by replace i with 0 by lia.
      * apply wait_flag_timeout. intros i Hi. by replace i with 0 by lia.
    + set (w' := mkWorld (w_heap w) (w_props w) (w_nalloc w) (w_clock w + 10)
                         (w_trace w ++ [ESleep 10])).
      assert (Hstep : forall i, e_flag E n key (w_clock w' + 10 * i) =
                                e_flag E n key (w_clock w + 10 * S i)).
      { intros i. cbn [w'  w_clock]. f_equal. lia. }
      destruct (e_flag E n key (w_clock w' + 10 * 0)) eqn:H1.
      * left. exists 1. split; [lia|]. split.
        { intros i Hi. by replace i with 0 by lia. }
        rewrite <- Hstep. split; [done|].
        apply wait_flag_seen; [lia | | by rewrite <- Hstep].
        intros i Hi. by replace i with 0 by lia.
      * destruct (IH w' H1) as [(j & Hj & Hb & Ha & _) | (Hn & _)].
        -- left. exists (S j). rewrite <- Hstep. split; [lia|]. split.
           { intros [|i] Hi; [done|]. rewrite <- Hstep. apply Hb. lia. }
           split; [done|].
           apply wait_flag_seen; [lia| |by rewrite <- Hstep].
           intros [|i] Hi; [done|]. rewrite <- Hstep. apply Hb. lia.
        -- right.
           assert (Hn' : forall i, i <= S k -> e_flag E n key (w_clock w + 10 * i) = false).
           { intros [|i] Hi; [done|]. rewrite <- Hstep. apply Hn. lia. }
           split; [done|]. by apply wait_flag_timeout.
Qed.

(** ** Reading the class code *)

Lemma read_class_code_eq (n : N) (w : world) :
  read_class_code n w = Some (class_code_of w n, w).
Proof.
  unfold read_class_code, class_code_of, bind, getProperty, as_data, ret.
  destruct (dict_get (props_of w n) "class-code") as [l|]; [|done].
  by destruct (w_heap w !! l) as [[]|].
Qed.

(** One child of a bridge, by its class code. *)
Lemma visit_eq (E : env) (c : dtree) (w : world) :
  visit E c w =
  match class_code_of w (dt_id c) with
  | Some k =>
      if is_storage k then internalizeDevice E (dt_id c) w
      else if Z.eqb k PCIBridge then
        (do timeout <- wait_flag E (dt_id c) "IOPCIConfigured" 1000;
         if (0 <? timeout)%Z then recurseBridge E c else ret tt) w
      else Some (tt, w)
  | None => Some (tt, w)
  end.
Proof.
  unfold visit. unfold bind at 1. rewrite read_class_code_eq. cbv beta iota.
  destruct (class_code_of w (dt_id c)) as [k|]; [|done].
  destruct (is_storage k); [done|]. by destruct (Z.eqb k PCIBridge).
Qed.

(** The inner loop of [recurseBridge] is [walk_list]. *)
Lemma recurseBridge_eq (E : env) (id : N) (kids : list dtree) :
  recurseBridge E (DNode id kids) = (do _ <- log (EWalk id); walk_list E kids).
Proof.
  apply functional_extensionality; intros w.
  cbn [recurseBridge]. cbv beta iota delta [bind log].
  generalize (mkWorld (w_heap w) (w_props w) (w_nalloc w) (w_clock w)
                      (w_trace w ++ [EWalk id])) as w'.
  induction kids as [|c cs IH]; intros w'; [done|].
  cbn [walk_list]. unfold visit, bind. rewrite !read_class_code_eq.
  cbv beta iota. case_match; [|done]. destruct p as [[] w'']. apply IH.
Qed.

(** ** The Annotator *)

(** [internalizeDevice] writes [built-in] first, then waits. *)
Lemma internalize_prefix (E : env) (n : N) (w : world) :
  e_alloc_fails E (w_nalloc w) = false ->
  internalizeDevice E n w =
  (do timeout <- wait_flag E n "IOPCIResourced" 2000;
   if (timeout <=? 0)%Z then ret tt else pass_loop E n 3 0) (builtin_set n w).
Proof.
  intros Halloc.
  unfold internalizeDevice, setBuiltIn, log, alloc, setProperty, builtin_set.
  unfold bind at 1 2 3 4.
  cbn [w_nalloc w_heap w_props w_clock w_trace]. rewrite Halloc.
  unfold props_of. done.
Qed.

(** ** Every step returns, except the unbounded root wait *)

Lemma total_bind {A B} (m : M A) (k : A -> M B) :
  total m -> (forall a, total (k a)) -> total (bind m k).
Proof.
  intros Hm Hk w. destruct (Hm w) as (a & w1 & H1).
  destruct (Hk a w1) as (b & w2 & H2).
  exists b, w2. unfold bind. by rewrite H1.
Qed.

Lemma total_ret {A} (a : A) : total (ret a).
Proof. intros w. by exists a, w. Qed.

Lemma total_prim {A} (f : world -> A * world) : total (fun w => Some (f w)).
Proof. intros w. exists (fst (f w)), (snd (f w)). by destruct (f w). Qed.

Ltac solve_total :=
  repeat first
    [ apply total_bind; [|intros ?]
    | apply total_ret
    | apply total_prim
    | match goal with |- total (match ?x with _ => _ end) => destruct x end
    | match goal with |- total (if ?x then _ else _) => destruct x end
    | progress unfold log, sleep, read_flag, getProperty, setProperty, alloc, as_dict,
               as_data, dict_setObject, service_plane, now, root_children ].

Lemma alloc_total (E : env) (o : obj) : total (alloc E o).
Proof. intros w. unfold alloc. destruct (e_alloc_fails E (w_nalloc w)); eauto. Qed.

Lemma setBuiltIn_total (E : env) (n : N) : total (setBuiltIn E n).
Proof.
  unfold setBuiltIn. apply total_bind; [apply alloc_total|]. intros [l|]; solve_total.
Qed.

Lemma dict_setObject_total (l : N) (k : string) (v : N) : total (dict_setObject l k v).
Proof. intros w. unfold dict_setObject. eauto. Qed.

Lemma updateOtherProperties_total (E : env) (n : N) : total (updateOtherProperties E n).
Proof.
  unfold updateOtherProperties.
  apply total_bind; [apply alloc_total|]. intros i.
  apply total_bind; [apply alloc_total|]. intros ic.
  destruct i as [li|]; destruct ic as [lic|]; try apply total_ret.
  apply total_bind; [solve_total|]. intros _.
  apply total_bind; [solve_total|]. intros icon.
  apply total_bind.
  { destruct icon as [l|]; [|apply total_ret].
    apply total_bind; [solve_total|]. intros [d|]; [|apply total_ret].
    apply total_bind; [apply alloc_total|]. intros [lc|]; [|apply total_ret].
    apply total_bind; [apply dict_setObject_total|]. intros _. solve_total. }
  intros _. apply total_bind; [solve_total|]. intros proto.
  apply total_bind; [|intros _; apply setBuiltIn_total].
  destruct proto as [l|].
  - apply total_bind; [solve_total|]. intros [d|]; [|apply total_ret].
    apply total_bind; [apply alloc_total|]. intros [lc|]; [|apply total_ret].
    apply total_bind; [apply dict_setObject_total|]. intros _. solve_total.
  - apply total_bind; [apply alloc_total|]. intros [lc|]; [|apply total_ret].
    apply total_bind; [apply dict_setObject_total|]. intros _. solve_total.
Qed.

Lemma wait_flag_total (E : env) (n : N) (key : string) (k : nat) : total (wait_flag E n key k).
Proof.
  induction k as [|k IH]; cbn [wait_flag]; (apply total_bind; [unfold read_flag; apply total_prim|]);
    intros b; destruct b; try apply total_ret.
  apply total_bind; [unfold sleep; apply total_prim|]. intros _; exact IH.
Qed.

Lemma update_drivers_total (E : env) (n : N) (ds : list N) : total (update_drivers E n ds).
Proof.
  induction ds as [|d r IH]; cbn [update_drivers]; [apply total_ret|].
  apply total_bind; [|intros _; exact IH].
  destruct (N.eqb d n); [apply total_ret | apply updateOtherProperties_total].
Qed.

Lemma pass_loop_total (E : env) (n : N) (rem pass : nat) : total (pass_loop E n rem pass).
Proof.
  revert pass; induction rem as [|r IH]; intros pass; cbn [pass_loop]; [apply total_ret|].
  apply total_bind; [|intros _; apply IH].
  unfold pass_body. apply total_bind; [apply updateOtherProperties_total|]. intros _.
  apply total_bind; [solve_total|]. intros ds.
  apply total_bind; [apply update_drivers_total|]. intros _. solve_total.
Qed.

Lemma internalizeDevice_total (E : env) (n : N) : total (internalizeDevice E n).
Proof.
  unfold internalizeDevice.
  apply total_bind; [solve_total|]. intros _.
  apply total_bind; [apply setBuiltIn_total|]. intros _.
  apply total_bind; [apply wait_flag_total|]. intros t.
  destruct (t <=? 0)%Z; [apply total_ret | apply pass_loop_total].
Qed.

Lemma recurseBridge_total (E : env) (t : dtree) : total (recurseBridge E t).
Proof.
  induction t as [id kids Hkids] using dtree_ind'.
  rewrite recurseBridge_eq. apply total_bind; [solve_total|]. intros _.
  induction Hkids as [|c cs Hc _ IH]; cbn [walk_list]; [apply total_ret|].
  apply total_bind; [|intros _; exact IH].
  intros w. rewrite visit_eq.
  destruct (class_code_of w (dt_id c)) as [k|]; [|eauto].
  destruct (is_storage k); [apply internalizeDevice_total|].
  destruct (Z.eqb k PCIBridge); [|eauto].
  revert w. apply total_bind; [apply wait_flag_total|]. intros t.
  destruct (0 <? t)%Z; [exact Hc | apply total_ret].
Qed.

(** ** Claims about the walker and the Annotator *)

(** C3 (classification routing).  [recurseBridge] visits the children of a
    bridge one after the other; a child whose class code is the SATA, NVMe
    or RAID code is handed to [internalizeDevice] in every world (whatever
    its properties, [built-in] included), and that call always returns, so
    the next sibling is visited; a child with the PCI-to-PCI bridge code is
    recursed into only after the [IOPCIConfigured] wait, and only when it
    ends with a positive counter; a child with any other code, with no
    class code, or with a class-code property that is not an OSData, is
    skipped without any effect. *)
Theorem classification_routing (E : env) :
  (forall id kids, recurseBridge E (DNode id kids) = (do _ <- log (EWalk id); walk_list E kids)) /\
  (forall c cs w, walk_list E (c :: cs) w =
                  match visit E c w with Some (_, w') => walk_list E cs w' | None => None end) /\
  (forall c w k, class_code_of w (dt_id c) = Some k ->
                 k = SATADevice \/ k = NVMeDevice \/ k = RAIDDevice ->
                 visit E c w = internalizeDevice E (dt_id c) w /\
                 exists w', internalizeDevice E (dt_id c) w = Some (tt, w')) /\
  (forall c w, class_code_of w (dt_id c) = Some PCIBridge ->
               visit E c w = (do timeout <- wait_flag E (dt_id c) "IOPCIConfigured" 1000;
                              if (0 <? timeout)%Z then recurseBridge E c else ret tt) w) /\
  (forall c w k, class_code_of w (dt_id c) = Some k ->
                 k <> SATADevice -> k <> NVMeDevice -> k <> RAIDDevice -> k <> PCIBridge ->
                 visit E c w = Some (tt, w)) /\
  (forall c w, class_code_of w (dt_id c) = None -> visit E c w = Some (tt, w)) /\
  (forall w n l o, dict_get (props_of w n) "class-code" = Some l -> w_heap w !! l = Some o ->
                   (forall b, o <> OData b) -> class_code_of w n = None).
Proof.
  split; [apply recurseBridge_eq|].
  split; [intros c cs w; cbn [walk_list]; unfold bind; by case_match|].
  split.
  { intros c w k Hk Hs. rewrite visit_eq, Hk.
    assert (is_storage k = true) as -> by (unfold is_storage; destruct Hs as [->|[->| ->]]; done).
    split; [done|]. destruct (internalizeDevice_total E (dt_id c) w) as ([] & w' & H). eauto. }
  split.
  { intros c w Hk. by rewrite visit_eq, Hk. }
  split.
  { intros c w k Hk H1 H2 H3 H4. rewrite visit_eq, Hk.
    unfold is_storage. repeat rewrite (proj2 (Z.eqb_neq _ _)) by done. done. }
  split.
  { intros c w Hk. by rewrite visit_eq, Hk. }
  intros w n l o Hl Ho Hnd. unfold class_code_of. rewrite Hl, Ho.
  destruct o; try done. by destruct (Hnd bytes).
Qed.

(** C5 (resourcing timeout).  When [IOPCIResourced] is not seen at any of
    the checks of the wait (2000 polls of 10ms), [internalizeDevice] ends
    with the [built-in] blob written at the start (at the time of the call,
    before any sleep) and nothing else: the property table of the node
    gains [built-in] only, the heap gains the one blob. *)
Theorem internalize_resourced_timeout (E : env) (n : N) (w : world) :
  e_alloc_fails E (w_nalloc w) = false ->
  (forall i, i <= 2000 -> e_flag E n "IOPCIResourced" (w_clock w + 10 * i) = false) ->
  exists w', internalizeDevice E n w = Some (tt, w') /\
    w_props w' = <[n := dict_set (props_of w n) "built-in" (w_nalloc w)]> (w_props w) /\
    w_heap w' = <[w_nalloc w := OData [1%Z]]> (w_heap w) /\
    w_clock w' = w_clock w + 10 * 2000 /\
    w_trace w' = (w_trace w ++ EInternalize n :: repeat (ESleep 10) 2000)%list.
Proof.
  intros Ha Hn. exists (sleeps (builtin_set n w) 2000).
  rewrite internalize_prefix by done. unfold bind.
  rewrite wait_flag_timeout by exact Hn.
  split; [done|]. cbn. split; [done|]. split; [done|]. split; [lia|].
  by rewrite <- app_assoc.
Qed.

Lemma is_storage_PCIBridge : is_storage PCIBridge = false.
Proof. reflexivity. Qed.

Lemma visit_bridge (E : env) (c : dtree) (w : world) :
  class_code_of w (dt_id c) = Some PCIBridge ->
  visit E c w = (do timeout <- wait_flag E (dt_id c) "IOPCIConfigured" 1000;
                 if (0 <? timeout)%Z then recurseBridge E c else ret tt) w.
Proof.
  intros Hc. rewrite visit_eq, Hc, is_storage_PCIBridge, Z.eqb_refl. done.
Qed.

(** C4 (bridge readiness).  For a child with the bridge class code:
    every run of its [visit] either ends after the polls with no other
    effect (the counter ran out), or recursed into the bridge after its
    [IOPCIConfigured] flag was seen true at one of the first 1000 checks.
    When the flag is not seen at any check, the visit is the 1000 sleeps
    alone (no property and no heap object changes, so nothing below the
    bridge is annotated), and the walk goes on with the next sibling. *)
Theorem bridge_readiness (E : env) (c : dtree) (w : world) :
  class_code_of w (dt_id c) = Some PCIBridge ->
  (forall w', visit E c w = Some (tt, w') ->
     w' = sleeps w 1000 \/
     exists j, j < 1000 /\ e_flag E (dt_id c) "IOPCIConfigured" (w_clock w + 10 * j) = true /\
               recurseBridge E c (sleeps w j) = Some (tt, w')) /\
  ((forall i, i <= 1000 -> e_flag E (dt_id c) "IOPCIConfigured" (w_clock w + 10 * i) = false) ->
   visit E c w = Some (tt, sleeps w 1000) /\
   forall cs, walk_list E (c :: cs) w = walk_list E cs (sleeps w 1000)).
Proof.
  intros Hc. split.
  - intros w' H. rewrite visit_bridge in H by done. unfold bind in H.
    destruct (wait_flag_cases E (dt_id c) "IOPCIConfigured" 1000 w)
      as [(j & Hj & _ & Ha & Hw) | (_ & Hw)]; rewrite Hw in H.
    + destruct (decide (j = 1000)) as [->|Hne].
      * left. assert (Hf : (0 <? Z.of_nat (1000 - 1000))%Z = false) by done.
        rewrite Hf in H. unfold ret in H. congruence.
      * right. exists j. split; [lia|]. split; [done|].
        assert (Ht : (0 <? Z.of_nat (1000 - j))%Z = true) by (apply Z.ltb_lt; lia).
        rewrite Ht in H. exact H.
    + left. assert (Hf : (0 <? -1)%Z = false) by done.
      rewrite Hf in H. unfold ret in H. congruence.
  - intros Hn.
    assert (Hv : visit E c w = Some (tt, sleeps w 1000)).
    { rewrite visit_bridge by done. unfold bind. by rewrite wait_flag_timeout. }
    split; [done|]. intros cs. cbn [walk_list]. unfold bind at 1. by rewrite Hv.
Qed.

(** ** Monad laws *)

Lemma bind_ret_l {A B} (a : A) (k : A -> M B) : bind (ret a) k = k a.
Proof. done. Qed.

Lemma bind_assoc {A B C} (m : M A) (f : A -> M B) (g : B -> M C) :
  bind (bind m f) g = bind m (fun a => bind (f a) g).
Proof.
  apply functional_extensionality; intros w. unfold bind.
  by destruct (m w) as [[a w']|].
Qed.

Lemma bind_ret_unit_r (m : M unit) : bind m (fun _ => ret tt) = m.
Proof.
  apply functional_extensionality; intros w. unfold bind.
  by destruct (m w) as [[[] w']|].
Qed.

(** ** The three passes *)

Lemma update_drivers_spec (E : env) (n : N) (ds : list N) :
  update_drivers E n ds = update_each E (List.filter (fun d => negb (N.eqb d n)) ds).
Proof.
  induction ds as [|d r IH]; [done|]. cbn [update_drivers List.filter].
  destruct (N.eqb d n); cbn [negb update_each]; by rewrite IH.
Qed.

Lemma pass_body_eq (E : env) (n : N) (pass : nat) :
  pass_body E n pass = bind (spec_pass E n) (fun _ => if Nat.ltb pass 2 then sleep 100 else ret tt).
Proof.
  unfold pass_body, spec_pass. rewrite !bind_assoc. f_equal.
  apply functional_extensionality; intros []. rewrite ?bind_assoc. f_equal.
  apply functional_extensionality; intros ds. by rewrite update_drivers_spec.
Qed.

Lemma pass_loop_three (E : env) (n : N) : pass_loop E n 3 0 = spec_three_passes E n.
Proof.
  cbn [pass_loop]. rewrite !pass_body_eq. cbn [Nat.ltb Nat.leb].
  rewrite bind_ret_unit_r, bind_ret_unit_r.
  unfold spec_three_passes. rewrite !bind_assoc. done.
Qed.

(** C6 (three passes).  [internalizeDevice] is: write [built-in], wait
    for [IOPCIResourced], and, when the wait succeeds, exactly the three
    passes of [spec_three_passes]: each pass updates the node and then
    every entry of its service-plane enumeration other than the node, and
    a 100ms sleep separates pass 1 from pass 2 and pass 2 from pass 3, with
    none after pass 3. *)
Theorem internalize_three_passes (E : env) (n : N) :
  internalizeDevice E n =
  (do _ <- log (EInternalize n);
   do _ <- setBuiltIn E n;
   do timeout <- wait_flag E n "IOPCIResourced" 2000;
   if (timeout <=? 0)%Z then ret tt else spec_three_passes E n).
Proof.
  unfold internalizeDevice. by rewrite pass_loop_three.
Qed.

(** ** Witnesses on the sample registry *)

Lemma sample_flag_cfg (c r : nat) (roots : list dtree) (n : N) (t : nat) :
  e_flag (sample_env c r roots) n "IOPCIConfigured" t = Nat.leb c t.
Proof. reflexivity. Qed.

Lemma sample_flag_res (c r : nat) (roots : list dtree) (n : N) (t : nat) :
  e_flag (sample_env c r roots) n "IOPCIResourced" t = Nat.leb r t.
Proof. reflexivity. Qed.

Lemma sample_clock : w_clock sample_world = 0.
Proof. reflexivity. Qed.

Lemma classification_routing_witness :
  class_code_of sample_world 3 = Some NVMeDevice /\
  visit (sample_env 0 0 sample_roots) (DNode 3 []) sample_world =
  internalizeDevice (sample_env 0 0 sample_roots) 3 sample_world.
Proof.
  assert (H : class_code_of sample_world 3 = Some NVMeDevice) by (vm_compute; reflexivity).
  split; [exact H|].
  apply (proj1 (proj1 (proj2 (proj2 (classification_routing (sample_env 0 0 sample_roots))))
                  (DNode 3 []) sample_world NVMeDevice H (or_intror (or_introl eq_refl)))).
Defined.

Lemma bridge_readiness_witness :
  class_code_of sample_world 4 = Some PCIBridge /\
  visit (sample_env (10 * 2000) 0 sample_roots) (DNode 4 [DNode 5 []]) sample_world =
  Some (tt, sleeps sample_world 1000).
Proof.
  assert (H : class_code_of sample_world 4 = Some PCIBridge) by (vm_compute; reflexivity).
  split; [exact H|].
  refine (proj1 (proj2 (bridge_readiness (sample_env (10 * 2000) 0 sample_roots) (DNode 4 [DNode 5 []])
                  sample_world H) _)).
  intros i Hi. rewrite ?sample_flag_cfg, ?sample_flag_res, sample_clock. apply Nat.leb_gt. lia.
Defined.

Lemma internalize_resourced_timeout_witness :
  exists w', internalizeDevice (sample_env 0 (10 * 3000) sample_roots) 3 sample_world = Some (tt, w') /\
    w_props w' = <[3%N := dict_set (props_of sample_world 3) "built-in" (w_nalloc sample_world)]>
                   (w_props sample_world) /\
    w_heap w' = <[w_nalloc sample_world := OData [1%Z]]> (w_heap sample_world) /\
    w_clock w' = w_clock sample_world + 10 * 2000 /\
    w_trace w' = (w_trace sample_world ++ EInternalize 3 :: repeat (ESleep 10) 2000)%list.
Proof.
  apply (internalize_resourced_timeout (sample_env 0 (10 * 3000) sample_roots) 3 sample_world).
  - reflexivity.
  - intros i Hi. rewrite ?sample_flag_cfg, ?sample_flag_res, sample_clock. apply Nat.leb_gt. lia.
Defined.


(** ** Closed form of [updateOtherProperties] *)

Lemma alloc_eq (E : env) (o : obj) (w : world) :
  alloc E o w = Some (if e_alloc_fails E (w_nalloc w) then None else Some (w_nalloc w),
                      alloc_after E o w).
Proof. unfold alloc, alloc_after, bump, put_obj. by destruct (e_alloc_fails E (w_nalloc w)). Qed.

Lemma props_of_put_prop (n m : N) (k : string) (l : N) (w : world) :
  props_of (put_prop n k l w) m = if decide (n = m) then dict_set (props_of w n) k l else props_of w m.
Proof.
  unfold props_of at 1, put_prop; cbn [w_props].
  case_decide as H; [subst; by rewrite lookup_insert_eq | by rewrite lookup_insert_ne].
Qed.

Lemma setProperty_eq (n : N) (k : string) (l : N) (w : world) :
  setProperty n k l w = Some (tt, put_prop n k l w).
Proof. done. Qed.

Lemma dict_set_object_fresh (lc : N) (d : list (string * N)) (k : string) (v : N) (w : world) :
  w_nalloc w = lc ->
  dict_setObject lc k v (put_obj (ODict d) w) = Some (tt, put_obj (ODict (dict_set d k v)) w).
Proof.
  intros <-. unfold dict_setObject, put_obj. cbn [w_heap w_props w_nalloc w_clock w_trace].
  rewrite lookup_insert_eq. by rewrite insert_insert_eq.
Qed.

Lemma icon_update_eq (E : env) (n lic : N) (w : world) :
  icon_update E n lic w = Some (tt, icon_after E n lic w).
Proof.
  unfold icon_update, icon_after, bind, getProperty, as_dict, ret.
  destruct (dict_get (props_of w n) "IOMediaIcon") as [l|]; [|done].
  destruct (w_heap w !! l) as [[]|]; try done.
  rewrite alloc_eq. unfold alloc_after.
  destruct (e_alloc_fails E (w_nalloc w)); [done|].
  by rewrite dict_set_object_fresh.
Qed.

Lemma proto_update_eq (E : env) (n li : N) (w : world) :
  proto_update E n li w = Some (tt, proto_after E n li w).
Proof.
  unfold proto_update, proto_after, bind, getProperty, as_dict, ret.
  destruct (dict_get (props_of w n) "Protocol Characteristics") as [l|].
  - destruct (w_heap w !! l) as [[]|]; try done.
    rewrite alloc_eq. unfold alloc_after.
    destruct (e_alloc_fails E (w_nalloc w)); [done|].
    by rewrite dict_set_object_fresh.
  - rewrite alloc_eq. unfold alloc_after.
    destruct (e_alloc_fails E (w_nalloc w)); [done|].
    by rewrite dict_set_object_fresh.
Qed.

Lemma setBuiltIn_eq (E : env) (n : N) (w : world) :
  setBuiltIn E n w = Some (tt, builtin_after E n w).
Proof.
  unfold setBuiltIn, builtin_after, bind. rewrite alloc_eq. unfold alloc_after.
  by destruct (e_alloc_fails E (w_nalloc w)).
Qed.

(** [updateOtherProperties] is its blocks in sequence. *)
Lemma updateOtherProperties_blocks (E : env) (n : N) :
  updateOtherProperties E n =
  (do internal <- alloc E (OString "Internal");
   do internalIcon <- alloc E (OString "Internal.icns");
   match internal, internalIcon with
   | Some li, Some lic =>
       do _ <- setProperty n PIL li;
       do _ <- icon_update E n lic;
       do _ <- proto_update E n li;
       setBuiltIn E n
   | _, _ => ret tt
   end).
Proof.
  unfold updateOtherProperties, icon_update, proto_update. reflexivity.
Qed.

Lemma nalloc_alloc_after (E : env) (o : obj) (w : world) :
  w_nalloc (alloc_after E o w) = (w_nalloc w + 1)%N.
Proof. unfold alloc_after. by destruct (e_alloc_fails E (w_nalloc w)). Qed.

(** The exact effect of [updateOtherProperties], allocation failures
    included; it always returns. *)
Lemma updateOtherProperties_after (E : env) (n : N) (w : world) :
  updateOtherProperties E n w = Some (tt, update_after E n w).
Proof.
  rewrite updateOtherProperties_blocks. unfold bind at 1. rewrite alloc_eq.
  cbv beta iota. unfold bind at 1. rewrite alloc_eq, nalloc_alloc_after.
  cbv beta iota. unfold update_after.
  destruct (e_alloc_fails E (w_nalloc w)); [done|].
  destruct (e_alloc_fails E (w_nalloc w + 1)%N); [done|]. cbn [orb].
  unfold bind. rewrite setProperty_eq, icon_update_eq, proto_update_eq, setBuiltIn_eq.
  done.
Qed.

(** ** Heap and property-table bookkeeping *)

Lemma dict_get_set (d : list (string * N)) (k k' : string) (v : N) :
  dict_get (dict_set d k v) k' = if String.eqb k' k then Some v else dict_get d k'.
Proof.
  induction d as [|[k0 v0] r IH]; cbn.
  - done.
  - destruct (String.eqb k k0) eqn:H1; cbn.
    + apply String.eqb_eq in H1; subst k0.
      destruct (String.eqb k' k); done.
    + rewrite IH. destruct (String.eqb k' k) eqn:H2; [|done].
      apply String.eqb_eq in H2; subst k'. by rewrite H1.
Qed.

Lemma extends_refl (w : world) : extends w w.
Proof. split; [lia | done]. Qed.

Lemma extends_trans (w1 w2 w3 : world) : extends w1 w2 -> extends w2 w3 -> extends w1 w3.
Proof.
  intros [H1 H2] [H3 H4]. split; [lia|]. intros l Hl.
  rewrite H4 by lia. by apply H2.
Qed.

Lemma extends_bump (w : world) : extends w (bump w).
Proof. split; [cbn; lia | done]. Qed.

Lemma extends_put_obj (o : obj) (w : world) : extends w (put_obj o w).
Proof.
  split; [cbn; lia|]. intros l Hl. cbn. rewrite lookup_insert_ne; [done|lia].
Qed.

Lemma extends_put_prop (n : N) (k : string) (l : N) (w : world) : extends w (put_prop n k l w).
Proof. split; [cbn; lia | done]. Qed.

Lemma fresh_bump (w : world) : fresh w -> fresh (bump w).
Proof. intros H l Hl. apply H. cbn in Hl. lia. Qed.

Lemma fresh_put_obj (o : obj) (w : world) : fresh w -> fresh (put_obj o w).
Proof.
  intros H l Hl. cbn in *. rewrite lookup_insert_ne by lia. apply H. lia.
Qed.

Lemma fresh_put_prop (n : N) (k : string) (l : N) (w : world) : fresh w -> fresh (put_prop n k l w).
Proof. done. Qed.

Lemma props_of_bump (w : world) (m : N) : props_of (bump w) m = props_of w m.
Proof. done. Qed.

Lemma props_of_put_obj (o : obj) (w : world) (m : N) : props_of (put_obj o w) m = props_of w m.
Proof. done. Qed.

Lemma heap_put_obj_self (o : obj) (w : world) : w_heap (put_obj o w) !! w_nalloc w = Some o.
Proof. cbn. by rewrite lookup_insert_eq. Qed.

(** The three shapes of a block's effect. *)
Lemma icon_after_cases (E : env) (n lic : N) (w : world) :
  icon_after E n lic w = w \/
  icon_after E n lic w = bump w \/
  exists l d, dict_get (props_of w n) "IOMediaIcon" = Some l /\ w_heap w !! l = Some (ODict d) /\
    e_alloc_fails E (w_nalloc w) = false /\
    icon_after E n lic w =
      put_prop n "IOMediaIcon" (w_nalloc w) (put_obj (ODict (dict_set d "IOBundleResourceFile" lic)) w).
Proof.
  unfold icon_after.
  destruct (dict_get (props_of w n) "IOMediaIcon") as [l|]; [|auto].
  destruct (w_heap w !! l) as [[]|] eqn:Hl; auto.
  destruct (e_alloc_fails E (w_nalloc w)) eqn:Ha; auto.
  right; right. eauto 7.
Qed.

Lemma proto_after_cases (E : env) (n li : N) (w : world) :
  proto_after E n li w = w \/
  proto_after E n li w = bump w \/
  exists d, e_alloc_fails E (w_nalloc w) = false /\
    proto_after E n li w =
      put_prop n "Protocol Characteristics" (w_nalloc w) (put_obj (ODict (dict_set d PIL li)) w) /\
    ((exists l, dict_get (props_of w n) "Protocol Characteristics" = Some l /\
                w_heap w !! l = Some (ODict d)) \/
     (dict_get (props_of w n) "Protocol Characteristics" = None /\ d = [])).
Proof.
  unfold proto_after.
  destruct (dict_get (props_of w n) "Protocol Characteristics") as [l|].
  - destruct (w_heap w !! l) as [[]|] eqn:Hl; auto.
    destruct (e_alloc_fails E (w_nalloc w)) eqn:Ha; auto.
    right; right. exists d. eauto 7.
  - destruct (e_alloc_fails E (w_nalloc w)) eqn:Ha; auto.
    right; right. exists []. eauto 7.
Qed.

Lemma builtin_after_cases (E : env) (n : N) (w : world) :
  builtin_after E n w = bump w \/
  (e_alloc_fails E (w_nalloc w) = false /\
   builtin_after E n w = put_prop n "built-in" (w_nalloc w) (put_obj (OData [1%Z]) w)).
Proof. unfold builtin_after. destruct (e_alloc_fails E (w_nalloc w)); auto. Qed.

Lemma icon_after_extends (E : env) (n lic : N) (w : world) :
  extends w (icon_after E n lic w) /\ (fresh w -> fresh (icon_after E n lic w)).
Proof.
  destruct (icon_after_cases E n lic w) as [->|[->|(l & d & _ & _ & _ & ->)]].
  - split; [apply extends_refl | done].
  - split; [apply extends_bump | apply fresh_bump].
  - split.
    + eapply extends_trans; [apply extends_put_obj | apply extends_put_prop].
    + intros H. apply fresh_put_prop, fresh_put_obj, H.
Qed.

Lemma proto_after_extends (E : env) (n li : N) (w : world) :
  extends w (proto_after E n li w) /\ (fresh w -> fresh (proto_after E n li w)).
Proof.
  destruct (proto_after_cases E n li w) as [->|[->|(d & _ & -> & _)]].
  - split; [apply extends_refl | done].
  - split; [apply extends_bump | apply fresh_bump].
  - split.
    + eapply extends_trans; [apply extends_put_obj | apply extends_put_prop].
    + intros H. apply fresh_put_prop, fresh_put_obj, H.
Qed.

Lemma builtin_after_extends (E : env) (n : N) (w : world) :
  extends w (builtin_after E n w) /\ (fresh w -> fresh (builtin_after E n w)).
Proof.
  destruct (builtin_after_cases E n w) as [->|(_ & ->)].
  - split; [apply extends_bump | apply fresh_bump].
  - split.
    + eapply extends_trans; [apply extends_put_obj | apply extends_put_prop].
    + intros H. apply fresh_put_prop, fresh_put_obj, H.
Qed.

(** ** Resolved tables *)

Lemma aget_aset {V} (d : list (string * V)) (k k' : string) (v : V) :
  aget (aset d k v) k' = if String.eqb k' k then Some v else aget d k'.
Proof.
  induction d as [|[k0 v0] r IH]; cbn.
  - done.
  - destruct (String.eqb k k0) eqn:H1; cbn.
    + apply String.eqb_eq in H1; subst k0.
      destruct (String.eqb k' k); done.
    + rewrite IH. destruct (String.eqb k' k) eqn:H2; [|done].
      apply String.eqb_eq in H2; subst k'. by rewrite H1.
Qed.

Lemma aset_aset {V} (d : list (string * V)) (k : string) (v v' : V) :
  aset (aset d k v) k v' = aset d k v'.
Proof.
  induction d as [|[k0 v0] r IH]; cbn.
  - by rewrite String.eqb_refl.
  - destruct (String.eqb k k0) eqn:H1; cbn.
    + by rewrite String.eqb_refl.
    + by rewrite H1, IH.
Qed.

Lemma aset_same {V} (d : list (string * V)) (k : string) (v : V) :
  aget d k = Some v -> aset d k v = d.
Proof.
  induction d as [|[k0 v0] r IH]; cbn; [done|].
  destruct (String.eqb k k0) eqn:H1.
  - apply String.eqb_eq in H1; subst k0. by intros [= ->].
  - intros H. by rewrite IH.
Qed.

Lemma rview_set (F : nat) (h : gmap N obj) (d : list (string * N)) (k : string) (l : N) :
  rview F h (dict_set d k l) = aset (rview F h d) k (resolve F h l).
Proof.
  unfold rview. induction d as [|[k0 v0] r IH]; cbn; [done|].
  destruct (String.eqb k k0); cbn; [done|]. by rewrite IH.
Qed.

Lemma rview_get (F : nat) (h : gmap N obj) (d : list (string * N)) (k : string) :
  aget (rview F h d) k = option_map (resolve F h) (dict_get d k).
Proof.
  unfold rview. induction d as [|[k0 v0] r IH]; cbn; [done|].
  by destruct (String.eqb k k0).
Qed.

Lemma aget_builtin_view (F : nat) (v : list (string * option rval)) (k : string) :
  aget (builtin_view F v) k = if String.eqb k "built-in" then Some (rdata F [1%Z]) else aget v k.
Proof. apply aget_aset. Qed.

Lemma aget_icon_view (F : nat) (v : list (string * option rval)) (k : string) :
  String.eqb k "IOMediaIcon" = false -> aget (icon_view F v) k = aget v k.
Proof.
  intros Hk. unfold icon_view. repeat case_match; try done. by rewrite aget_aset, Hk.
Qed.

Lemma aget_proto_view (F : nat) (v : list (string * option rval)) (k : string) :
  String.eqb k "Protocol Characteristics" = false -> aget (proto_view F v) k = aget v k.
Proof.
  intros Hk. unfold proto_view. repeat case_match; try done; by rewrite aget_aset, Hk.
Qed.

(** What each block leaves behind is a fixed point of that block. *)
Lemma icon_view_fixed (F : nat) (u : list (string * option rval)) :
  (forall e, aget u "IOMediaIcon" = Some (Some (RDict e)) ->
             aset e "IOBundleResourceFile" (rstr (pred F) "Internal.icns") = e) ->
  icon_view F u = u.
Proof.
  intros H. unfold icon_view. destruct (aget u "IOMediaIcon") as [[[]|]|] eqn:Hg; try done.
  rewrite (H _ eq_refl). by apply aset_same.
Qed.

Lemma icon_view_output (F : nat) (v : list (string * option rval)) (e : list (string * option rval)) :
  aget (icon_view F v) "IOMediaIcon" = Some (Some (RDict e)) ->
  aset e "IOBundleResourceFile" (rstr (pred F) "Internal.icns") = e.
Proof.
  unfold icon_view. destruct (aget v "IOMediaIcon") as [[[]|]|] eqn:Hg; try (rewrite Hg; done).
  rewrite aget_aset, String.eqb_refl. intros [= <-]. apply aset_aset.
Qed.

Lemma proto_view_fixed (F : nat) (u : list (string * option rval)) :
  aget u "Protocol Characteristics" <> None ->
  (forall e, aget u "Protocol Characteristics" = Some (Some (RDict e)) ->
             aset e PIL (rstr (pred F) "Internal") = e) ->
  proto_view F u = u.
Proof.
  intros H0 H. unfold proto_view. destruct (aget u "Protocol Characteristics") as [[[]|]|] eqn:Hg; try done.
  rewrite (H _ eq_refl). by apply aset_same.
Qed.

Lemma proto_view_output (F : nat) (v : list (string * option rval)) :
  aget (proto_view F v) "Protocol Characteristics" <> None /\
  (forall e, aget (proto_view F v) "Protocol Characteristics" = Some (Some (RDict e)) ->
             aset e PIL (rstr (pred F) "Internal") = e).
Proof.
  unfold proto_view. destruct (aget v "Protocol Characteristics") as [[[]|]|] eqn:Hg;
    try (rewrite Hg; split; [done | intros e [=]]);
    rewrite aget_aset, String.eqb_refl; (split; [done|]).
  - intros e [= <-]. apply aset_aset.
  - destruct F; cbn; intros e H; inversion H; subst; cbn; try done.
Qed.

Lemma builtin_view_fixed (F : nat) (u : list (string * option rval)) :
  aget u "built-in" = Some (rdata F [1%Z]) -> builtin_view F u = u.
Proof. apply aset_same. Qed.

Lemma update_view_idem (F : nat) (v : list (string * option rval)) :
  update_view F (update_view F v) = update_view F v.
Proof.
  set (u := update_view F v).
  assert (Hb : aget u "built-in" = Some (rdata F [1%Z])).
  { unfold u, update_view. by rewrite aget_builtin_view. }
  assert (Hpil : aget u PIL = Some (rstr F "Internal")).
  { unfold u, update_view. rewrite aget_builtin_view; cbn.
    rewrite aget_proto_view, aget_icon_view by done. by rewrite aget_aset, String.eqb_refl. }
  assert (Hic : icon_view F u = u).
  { apply icon_view_fixed. intros e. unfold u, update_view.
    rewrite aget_builtin_view, aget_proto_view by done. cbn. apply icon_view_output. }
  assert (Hpr : proto_view F u = u).
  { destruct (proto_view_output F (icon_view F (aset v PIL (rstr F "Internal")))) as [H1 H2].
    apply proto_view_fixed.
    - unfold u, update_view. rewrite aget_builtin_view. exact H1.
    - intros e. unfold u, update_view. rewrite aget_builtin_view. apply H2. }
  unfold update_view at 1. rewrite (aset_same _ _ _ Hpil), Hic, Hpr.
  by apply builtin_view_fixed.
Qed.

Lemma builtin_update_view (F : nat) (v : list (string * option rval)) :
  builtin_view F (update_view F v) = update_view F v.
Proof. apply builtin_view_fixed. unfold update_view. by rewrite aget_builtin_view. Qed.

Lemma builtin_view_idem (F : nat) (v : list (string * option rval)) :
  builtin_view F (builtin_view F v) = builtin_view F v.
Proof. apply aset_aset. Qed.

(** ** The blocks on property state by value *)

Lemma refs_below_mono (o : obj) (b b' : N) : refs_below o b -> (b <= b')%N -> refs_below o b'.
Proof. destruct o; cbn; try done. intros H Hle k v Hin. specialize (H k v Hin). lia. Qed.

Lemma in_dict_set (d : list (string * N)) (k k' : string) (v v' : N) :
  In (k', v') (dict_set d k v) -> In (k', v') d \/ v' = v.
Proof.
  induction d as [|[k0 v0] r IH]; cbn.
  - intros [[= _ <-]|[]]. by right.
  - destruct (String.eqb k k0); cbn.
    + intros [[= _ <-]|Hin]; [by right | by left; right].
    + intros [H|Hin]; [by left; left|]. destruct (IH Hin); [by left; right | by right].
Qed.

Lemma wf_bump (w : world) : wf w -> wf (bump w).
Proof.
  intros (Hf & Hh & Hp). split; [by apply fresh_bump|]. split.
  - intros l o Hl. eapply refs_below_mono; [exact (Hh _ _ Hl) | cbn; lia].
  - intros m k v Hin. specialize (Hp _ _ _ Hin). cbn. lia.
Qed.

Lemma wf_put_obj (o : obj) (w : world) : wf w -> refs_below o (w_nalloc w) -> wf (put_obj o w).
Proof.
  intros (Hf & Hh & Hp) Ho. split; [by apply fresh_put_obj|]. split.
  - intros l o' Hl. cbn in Hl |- *. destruct (decide (l = w_nalloc w)) as [->|Hne].
    + rewrite lookup_insert_eq in Hl. injection Hl as <-. eapply refs_below_mono; [exact Ho | lia].
    + rewrite lookup_insert_ne in Hl by done. eapply refs_below_mono; [exact (Hh _ _ Hl) | lia].
  - intros m k v Hin. rewrite props_of_put_obj in Hin. specialize (Hp _ _ _ Hin). cbn. lia.
Qed.

Lemma wf_put_prop (n : N) (k : string) (l : N) (w : world) :
  wf w -> (l < w_nalloc w)%N -> wf (put_prop n k l w).
Proof.
  intros (Hf & Hh & Hp) Hl. split; [by apply fresh_put_prop|]. split; [exact Hh|].
  intros m k' v Hin. rewrite props_of_put_prop in Hin. cbn.
  case_decide; [|eapply Hp; eauto].
  apply in_dict_set in Hin as [Hin| ->]; [eapply Hp; eauto | done].
Qed.

Lemma icon_after_wf (E : env) (n lic : N) (w : world) :
  wf w -> (lic < w_nalloc w)%N -> wf (icon_after E n lic w).
Proof.
  intros Hwf Hlic.
  destruct (icon_after_cases E n lic w) as [->|[->|(l & d & Hg & Hl & _ & ->)]];
    [done | by apply wf_bump|].
  apply wf_put_prop; [apply wf_put_obj; [done|] | cbn; lia].
  intros k v Hin. apply in_dict_set in Hin as [Hin| ->]; [|done].
  exact (proj1 (proj2 Hwf) _ _ Hl k v Hin).
Qed.

Lemma proto_after_wf (E : env) (n li : N) (w : world) :
  wf w -> (li < w_nalloc w)%N -> wf (proto_after E n li w).
Proof.
  intros Hwf Hli.
  destruct (proto_after_cases E n li w) as [->|[->|(d & _ & -> & Hd)]];
    [done | by apply wf_bump|].
  apply wf_put_prop; [apply wf_put_obj; [done|] | cbn; lia].
  intros k v Hin. apply in_dict_set in Hin as [Hin| ->]; [|done].
  destruct Hd as [(l & _ & Hl)|(_ & ->)]; [|done].
  exact (proj1 (proj2 Hwf) _ _ Hl k v Hin).
Qed.

Lemma builtin_after_wf (E : env) (n : N) (w : world) : wf w -> wf (builtin_after E n w).
Proof.
  intros Hwf. destruct (builtin_after_cases E n w) as [->|(_ & ->)]; [by apply wf_bump|].
  apply wf_put_prop; [by apply wf_put_obj | cbn; lia].
Qed.

Lemma wf_alloc_after (E : env) (s : string) (w : world) : wf w -> wf (alloc_after E (OString s) w).
Proof.
  intros Hwf. unfold alloc_after. destruct (e_alloc_fails E (w_nalloc w));
    [by apply wf_bump | by apply wf_put_obj].
Qed.

Lemma update_after_wf (E : env) (n : N) (w : world) : wf w -> wf (update_after E n w).
Proof.
  intros Hwf. unfold update_after.
  assert (H2 : wf (alloc_after E (OString "Internal.icns") (alloc_after E (OString "Internal") w)))
    by (by apply wf_alloc_after, wf_alloc_after).
  destruct (_ || _); [done|].
  assert (Hn : w_nalloc (alloc_after E (OString "Internal.icns") (alloc_after E (OString "Internal") w))
               = (w_nalloc w + 2)%N) by (rewrite !nalloc_alloc_after; lia).
  apply builtin_after_wf, proto_after_wf.
  - apply icon_after_wf; [apply wf_put_prop; [done | lia] | cbn; lia].
  - destruct (icon_after_extends E n (w_nalloc w + 1) (put_prop n PIL (w_nalloc w)
      (alloc_after E (OString "Internal.icns") (alloc_after E (OString "Internal") w)))) as [[Hle _] _].
    cbn [w_nalloc put_prop] in Hle. lia.
Qed.

Lemma wf_lt (w : world) (l : N) (o : obj) : wf w -> w_heap w !! l = Some o -> (l < w_nalloc w)%N.
Proof.
  intros (Hf & _ & _) Hl. destruct (decide (l < w_nalloc w)%N) as [|Hge]; [done|].
  rewrite Hf in Hl by lia. done.
Qed.

Lemma resolve_extends (F : nat) (w w' : world) (l : N) :
  (forall l o, w_heap w !! l = Some o -> refs_below o (w_nalloc w)) ->
  extends w w' -> (l < w_nalloc w)%N ->
  resolve F (w_heap w') l = resolve F (w_heap w) l.
Proof.
  intros Hh [_ Hx]. revert l. induction F as [|F IH]; intros l Hl; [done|].
  cbn. rewrite (Hx l Hl). destruct (w_heap w !! l) as [[]|] eqn:Ho; try done.
  do 2 f_equal. apply List.map_ext_in. intros [k v] Hin. cbn. f_equal.
  apply IH. exact (Hh _ _ Ho k v Hin).
Qed.

Lemma pview_extends (F : nat) (w w' : world) (m : N) :
  wf w -> extends w w' -> props_of w' m = props_of w m -> pview F w' m = pview F w m.
Proof.
  intros (_ & Hh & Hp) Hx Hm. unfold pview, rview. rewrite Hm.
  apply List.map_ext_in. intros [k v] Hin. cbn. f_equal.
  apply resolve_extends; [done | done | exact (Hp _ _ _ Hin)].
Qed.

Lemma pview_put_obj (F : nat) (o : obj) (w : world) (m : N) :
  wf w -> pview F (put_obj o w) m = pview F w m.
Proof. intros Hwf. apply pview_extends; [done | apply extends_put_obj | done]. Qed.

Lemma pview_bump (F : nat) (w : world) (m : N) : pview F (bump w) m = pview F w m.
Proof. done. Qed.

Lemma pview_put_prop (F : nat) (n : N) (k : string) (l : N) (w : world) :
  pview F (put_prop n k l w) n = aset (pview F w n) k (resolve F (w_heap w) l).
Proof.
  unfold pview. rewrite props_of_put_prop. case_decide; [|done]. apply rview_set.
Qed.

Lemma pview_put_prop_ne (F : nat) (n m : N) (k : string) (l : N) (w : world) :
  m <> n -> pview F (put_prop n k l w) m = pview F w m.
Proof. intros Hm. unfold pview. rewrite props_of_put_prop. by case_decide. Qed.

Lemma resolve_string (F : nat) (h : gmap N obj) (l : N) (s : string) :
  h !! l = Some (OString s) -> resolve F h l = rstr F s.
Proof. intros H. destruct F; cbn; [done|]. by rewrite H. Qed.

Lemma resolve_put_obj_dict (F : nat) (d : list (string * N)) (w : world) :
  wf w -> refs_below (ODict d) (w_nalloc w) ->
  resolve F (w_heap (put_obj (ODict d) w)) (w_nalloc w) = rdict F (rview (pred F) (w_heap w) d).
Proof.
  intros (_ & Hh & _) Hd. destruct F as [|F]; [done|]. cbn. rewrite lookup_insert_eq.
  unfold rview. do 2 f_equal. apply List.map_ext_in. intros [k v] Hin. cbn. f_equal.
  apply (resolve_extends F w (put_obj (ODict d) w)); [done | apply extends_put_obj | exact (Hd k v Hin)].
Qed.

Lemma icon_after_view (F : nat) (E : env) (n lic : N) (w : world) :
  wf w -> (forall k, e_alloc_fails E k = false) ->
  w_heap w !! lic = Some (OString "Internal.icns") ->
  pview F (icon_after E n lic w) n = icon_view F (pview F w n).
Proof.
  intros Hwf Hok Hlic. unfold icon_after, icon_view. unfold pview at 2. rewrite rview_get.
  destruct (dict_get (props_of w n) "IOMediaIcon") as [l|] eqn:Hg; cbn [option_map]; [|done].
  destruct (w_heap w !! l) as [o|] eqn:Hl.
  - destruct o as [b|bs|s|d]; try (destruct F; cbn [resolve]; rewrite ?Hl; done).
    assert (Hd : refs_below (ODict (dict_set d "IOBundleResourceFile" lic)) (w_nalloc w)).
    { intros k v Hin. apply in_dict_set in Hin as [Hin| ->].
      - exact (proj1 (proj2 Hwf) _ _ Hl k v Hin).
      - by apply (wf_lt w _ (OString "Internal.icns")). }
    rewrite Hok, pview_put_prop, pview_put_obj, resolve_put_obj_dict, rview_set by done.
    destruct F as [|F].
    + cbn. apply aset_same. unfold pview. by rewrite rview_get, Hg.
    + cbn [resolve]. rewrite Hl. cbn [rdict pred]. rewrite (resolve_string F _ lic _ Hlic). done.
  - destruct F; cbn [resolve]; rewrite ?Hl; done.
Qed.

Lemma proto_after_view (F : nat) (E : env) (n li : N) (w : world) :
  wf w -> (forall k, e_alloc_fails E k = false) ->
  w_heap w !! li = Some (OString "Internal") ->
  pview F (proto_after E n li w) n = proto_view F (pview F w n).
Proof.
  intros Hwf Hok Hli.
  assert (Hlt : (li < w_nalloc w)%N) by (by apply (wf_lt w _ (OString "Internal"))).
  unfold proto_after, proto_view. unfold pview at 2. rewrite rview_get.
  destruct (dict_get (props_of w n) "Protocol Characteristics") as [l|] eqn:Hg; cbn [option_map].
  - destruct (w_heap w !! l) as [o|] eqn:Hl.
    + destruct o as [b|bs|s|d]; try (destruct F; cbn [resolve]; rewrite ?Hl; done).
      assert (Hd : refs_below (ODict (dict_set d PIL li)) (w_nalloc w)).
      { intros k v Hin. apply in_dict_set in Hin as [Hin| ->]; [|done].
        exact (proj1 (proj2 Hwf) _ _ Hl k v Hin). }
      rewrite Hok, pview_put_prop, pview_put_obj, resolve_put_obj_dict, rview_set by done.
      destruct F as [|F].
      * cbn. apply aset_same. unfold pview. by rewrite rview_get, Hg.
      * cbn [resolve]. rewrite Hl. cbn [rdict pred]. rewrite (resolve_string F _ li _ Hli). done.
    + destruct F; cbn [resolve]; rewrite ?Hl; done.
  - assert (Hd : refs_below (ODict [(PIL, li)]) (w_nalloc w)).
    { intros k v [[= _ <-]|[]]. done. }
    rewrite Hok, pview_put_prop, pview_put_obj, resolve_put_obj_dict by done.
    destruct F as [|F]; [done|]. unfold rview. cbn [map fst snd rdict pred].
    by rewrite (resolve_string F _ li _ Hli).
Qed.

Lemma builtin_after_view (F : nat) (E : env) (n : N) (w : world) :
  wf w -> (forall k, e_alloc_fails E k = false) ->
  pview F (builtin_after E n w) n = builtin_view F (pview F w n).
Proof.
  intros Hwf Hok. unfold builtin_after. rewrite Hok, pview_put_prop, pview_put_obj by done.
  unfold builtin_view. f_equal. destruct F; cbn; [done|]. by rewrite lookup_insert_eq.
Qed.

Lemma icon_after_other (F : nat) (E : env) (n lic m : N) (w : world) :
  wf w -> m <> n -> pview F (icon_after E n lic w) m = pview F w m.
Proof.
  intros Hwf Hm.
  destruct (icon_after_cases E n lic w) as [->|[->|(l & d & _ & _ & _ & ->)]]; [done|done|].
  by rewrite pview_put_prop_ne, pview_put_obj.
Qed.

Lemma proto_after_other (F : nat) (E : env) (n li m : N) (w : world) :
  wf w -> m <> n -> pview F (proto_after E n li w) m = pview F w m.
Proof.
  intros Hwf Hm.
  destruct (proto_after_cases E n li w) as [->|[->|(d & _ & -> & _)]]; [done|done|].
  by rewrite pview_put_prop_ne, pview_put_obj.
Qed.

Lemma builtin_after_other (F : nat) (E : env) (n m : N) (w : world) :
  wf w -> m <> n -> pview F (builtin_after E n w) m = pview F w m.
Proof.
  intros Hwf Hm. destruct (builtin_after_cases E n w) as [->|(_ & ->)]; [done|].
  by rewrite pview_put_prop_ne, pview_put_obj.
Qed.

(** With every allocation succeeding, [updateOtherProperties] acts on
    property state by value as [update_view] on the node and leaves every
    other node alone. *)
Lemma update_after_view (F : nat) (E : env) (n m : N) (w : world) :
  wf w -> (forall k, e_alloc_fails E k = false) ->
  pview F (update_after E n w) m =
  if N.eqb m n then update_view F (pview F w m) else pview F w m.
Proof.
  intros Hwf Hok. unfold update_after, alloc_after. rewrite !Hok. cbn [orb].
  set (a := w_nalloc w).
  set (w1 := put_obj (OString "Internal") w).
  set (w2 := put_obj (OString "Internal.icns") w1).
  set (w3 := put_prop n PIL a w2).
  assert (Hw1 : wf w1) by (by apply wf_put_obj).
  assert (Hw2 : wf w2) by (by apply wf_put_obj).
  assert (Hn2 : w_nalloc w2 = (a + 2)%N) by (cbn; lia).
  assert (Hw3 : wf w3) by (apply wf_put_prop; [done | lia]).
  assert (Ha2 : w_heap w2 !! a = Some (OString "Internal")).
  { cbn. rewrite lookup_insert_ne by lia. by rewrite lookup_insert_eq. }
  assert (Hic : w_heap w3 !! (a + 1)%N = Some (OString "Internal.icns")).
  { cbn. by rewrite lookup_insert_eq. }
  set (w4 := icon_after E n (a + 1) w3).
  destruct (icon_after_extends E n (a + 1) w3) as [Hx4 _].
  assert (Hw4 : wf w4) by (apply icon_after_wf; [done | cbn; lia]).
  assert (Ha4 : w_heap w4 !! a = Some (OString "Internal")).
  { destruct Hx4 as [_ Hx4]. rewrite Hx4 by (cbn; lia). exact Ha2. }
  set (w5 := proto_after E n a w4).
  assert (Hw5 : wf w5) by (apply proto_after_wf; [done | by apply (wf_lt w4 _ (OString "Internal"))]).
  destruct (N.eqb_spec m n) as [->|Hm].
  - rewrite builtin_after_view by done. unfold w5.
    rewrite proto_after_view by done. unfold w4.
    rewrite icon_after_view by done. unfold w3. rewrite pview_put_prop, (resolve_string F _ a _ Ha2).
    unfold w2, w1. rewrite !pview_put_obj by done. done.
  - rewrite builtin_after_other by done. unfold w5.
    rewrite proto_after_other by done. unfold w4.
    rewrite icon_after_other by done. unfold w3. rewrite pview_put_prop_ne by done.
    unfold w2, w1. rewrite !pview_put_obj by done. done.
Qed.

(** ** The Annotator on property state by value *)

Lemma wf_check_sound (w : world) : wf_check w = true -> wf w.
Proof.
  unfold wf_check. rewrite andb_true_iff, !forallb_forall. intros [Hh Hp].
  assert (Hl : forall l o, w_heap w !! l = Some o ->
                 (l < w_nalloc w)%N /\ refs_check o (w_nalloc w) = true).
  { intros l o Hlo. apply elem_of_map_to_list, list_elem_of_In in Hlo.
    specialize (Hh _ Hlo). cbn in Hh. apply andb_true_iff in Hh as [H1 H2].
    split; [by apply N.ltb_lt | done]. }
  split; [|split].
  - intros l Hge. destruct (w_heap w !! l) as [o|] eqn:Ho; [|done].
    destruct (Hl _ _ Ho). lia.
  - intros l o Ho. destruct (Hl _ _ Ho) as [_ Hc]. destruct o; cbn; try done.
    intros k v Hin. cbn in Hc. rewrite forallb_forall in Hc.
    apply N.ltb_lt. exact (Hc _ Hin).
  - intros m k v Hin. unfold props_of in Hin.
    destruct (w_props w !! m) as [t|] eqn:Ht; [|done].
    apply elem_of_map_to_list, list_elem_of_In in Ht.
    specialize (Hp _ Ht). cbn in Hp. rewrite forallb_forall in Hp.
    apply N.ltb_lt. exact (Hp _ Hin).
Qed.

Lemma update_each_view (E : env) (ds : list N) (w : world) :
  wf w -> (forall k, e_alloc_fails E k = false) ->
  exists w', update_each E ds w = Some (tt, w') /\ wf w' /\
    forall F m, pview F w' m =
      if existsb (N.eqb m) ds then update_view F (pview F w m) else pview F w m.
Proof.
  intros Hwf Hok. revert w Hwf. induction ds as [|d r IH]; intros w Hwf.
  - exists w. done.
  - destruct (IH (update_after E d w) (update_after_wf E d w Hwf)) as (w' & Hr & Hw' & Hv).
    exists w'. split; [|split; [done|]].
    + cbn [update_each]. unfold bind. by rewrite updateOtherProperties_after.
    + intros F m. rewrite Hv, !update_after_view by done. cbn [existsb].
      destruct (N.eqb m d), (existsb (N.eqb m) r); cbn; rewrite ?update_view_idem; done.
Qed.

Lemma existsb_filter_self (n : N) (l : list N) :
  existsb (N.eqb n) (List.filter (fun d => negb (N.eqb d n)) l) = false.
Proof.
  induction l as [|d r IH]; [done|]. cbn [List.filter].
  destruct (N.eqb_spec d n) as [->|Hd]; cbn; [done|].
  rewrite IH, orb_false_r. by apply N.eqb_neq.
Qed.

Lemma spec_pass_view (E : env) (n : N) (w : world) :
  wf w -> (forall k, e_alloc_fails E k = false) -> (forall t, e_svc E n t = e_svc E n 0) ->
  exists w', spec_pass E n w = Some (tt, w') /\ wf w' /\
    forall F m, pview F w' m =
      if N.eqb m n || existsb (N.eqb m) (List.filter (fun d => negb (N.eqb d n)) (e_svc E n 0))
      then update_view F (pview F w m) else pview F w m.
Proof.
  intros Hwf Hok Hsvc.
  destruct (update_each_view E (List.filter (fun d => negb (N.eqb d n)) (e_svc E n 0))
              (update_after E n w) (update_after_wf E n w Hwf) Hok) as (w' & Hr & Hw' & Hv).
  exists w'. split; [|split; [done|]].
  - unfold spec_pass, bind, service_plane. rewrite updateOtherProperties_after.
    cbv beta iota. by rewrite Hsvc.
  - intros F m. rewrite Hv, update_after_view by done.
    destruct (N.eqb_spec m n) as [->|Hm].
    + rewrite existsb_filter_self. done.
    + done.
Qed.

Lemma three_passes_view (E : env) (n : N) (w : world) :
  wf w -> (forall k, e_alloc_fails E k = false) -> (forall t, e_svc E n t = e_svc E n 0) ->
  exists w', spec_three_passes E n w = Some (tt, w') /\ wf w' /\
    forall F m, pview F w' m =
      if N.eqb m n || existsb (N.eqb m) (List.filter (fun d => negb (N.eqb d n)) (e_svc E n 0))
      then update_view F (pview F w m) else pview F w m.
Proof.
  intros Hwf Hok Hsvc.
  destruct (spec_pass_view E n w Hwf Hok Hsvc) as (w1 & H1 & Hw1 & Hv1).
  set (s1 := mkWorld (w_heap w1) (w_props w1) (w_nalloc w1) (w_clock w1 + 100) (w_trace w1 ++ [ESleep 100])).
  destruct (spec_pass_view E n s1 Hw1 Hok Hsvc) as (w2 & H2 & Hw2 & Hv2).
  set (s2 := mkWorld (w_heap w2) (w_props w2) (w_nalloc w2) (w_clock w2 + 100) (w_trace w2 ++ [ESleep 100])).
  destruct (spec_pass_view E n s2 Hw2 Hok Hsvc) as (w3 & H3 & Hw3 & Hv3).
  exists w3. split; [|split; [done|]].
  - unfold spec_three_passes, bind. rewrite H1. unfold sleep. fold s1. rewrite H2. fold s2. by rewrite H3.
  - intros F m. rewrite Hv3. change (pview F s2 m) with (pview F w2 m). rewrite Hv2.
    change (pview F s1 m) with (pview F w1 m). rewrite Hv1.
    destruct (_ || _); rewrite ?update_view_idem; done.
Qed.

Lemma internalize_view (E : env) (n : N) (w : world) :
  wf w -> (forall k, e_alloc_fails E k = false) ->
  (forall t, e_flag E n "IOPCIResourced" t = e_flag E n "IOPCIResourced" 0) ->
  (forall t, e_svc E n t = e_svc E n 0) ->
  exists w', internalizeDevice E n w = Some (tt, w') /\ wf w' /\
    forall F m, pview F w' m = intern_view E n F m (pview F w m).
Proof.
  intros Hwf Hok Hres Hsvc.
  set (w0 := mkWorld (w_heap w) (w_props w) (w_nalloc w) (w_clock w) (w_trace w ++ [EInternalize n])).
  assert (Hw0 : wf w0) by exact Hwf.
  set (w1 := builtin_after E n w0).
  assert (Hw1 : wf w1) by (by apply builtin_after_wf).
  assert (Hv1 : forall F m, pview F w1 m = if N.eqb m n then builtin_view F (pview F w m) else pview F w m).
  { intros F m. destruct (N.eqb_spec m n) as [->|Hm].
    - unfold w1. by rewrite builtin_after_view.
    - unfold w1. by rewrite builtin_after_other. }
  assert (Hpre : internalizeDevice E n w =
    (do timeout <- wait_flag E n "IOPCIResourced" 2000;
     if (timeout <=? 0)%Z then ret tt else spec_three_passes E n) w1).
  { unfold internalizeDevice. rewrite pass_loop_three. unfold bind at 1 2. unfold log. fold w0.
    rewrite setBuiltIn_eq. done. }
  rewrite Hpre. unfold intern_view. destruct (e_flag E n "IOPCIResourced" 0) eqn:Hf.
  - destruct (three_passes_view E n w1 Hw1 Hok Hsvc) as (w' & H3 & Hw' & Hv).
    exists w'. split; [|split; [done|]].
    + unfold bind. rewrite (wait_flag_seen E n "IOPCIResourced" 2000 0) by (lia || (intros; lia) || by rewrite Hres).
      rewrite sleeps_0. assert (Ht : (Z.of_nat (2000 - 0) <=? 0)%Z = false) by (apply Z.leb_gt; lia).
      by rewrite Ht.
    + intros F m. rewrite Hv, Hv1. destruct (N.eqb_spec m n) as [->|Hm].
      * done.
      * done.
  - exists (sleeps w1 2000). split; [|split].
    + unfold bind. rewrite wait_flag_timeout by (intros; by rewrite Hres). done.
    + exact Hw1.
    + intros F m. change (pview F (sleeps w1 2000) m) with (pview F w1 m). by rewrite Hv1.
Qed.

Lemma intern_view_idem (E : env) (n : N) (F : nat) (m : N) (v : list (string * option rval)) :
  intern_view E n F m (intern_view E n F m v) = intern_view E n F m v.
Proof.
  unfold intern_view. destruct (e_flag E n "IOPCIResourced" 0), (N.eqb m n); try destruct (existsb _ _);
    rewrite ?builtin_update_view, ?update_view_idem, ?builtin_view_idem; done.
Qed.

(** C8 (idempotence).  Property state is compared by value: [pview F w m]
    is node [m]'s property table with every reference resolved through the
    heap to depth [F].  In a well-formed world, when no allocation fails and
    the node's [IOPCIResourced] flag and service-plane enumeration do not
    change between the runs, running [internalizeDevice] a second time on
    the result of a first run leaves every node's property state as the
    first run left it, at every depth; the same holds for
    [updateOtherProperties] on its own. *)
Theorem annotation_idempotent (E : env) (n : N) (w : world) :
  (forall k, e_alloc_fails E k = false) -> wf w ->
  (forall t, e_flag E n "IOPCIResourced" t = e_flag E n "IOPCIResourced" 0) ->
  (forall t, e_svc E n t = e_svc E n 0) ->
  (exists w1 w2, internalizeDevice E n w = Some (tt, w1) /\
     internalizeDevice E n w1 = Some (tt, w2) /\
     forall F m, pview F w2 m = pview F w1 m) /\
  (exists u1 u2, updateOtherProperties E n w = Some (tt, u1) /\
     updateOtherProperties E n u1 = Some (tt, u2) /\
     forall F m, pview F u2 m = pview F u1 m).
Proof.
  intros Hok Hwf Hres Hsvc. split.
  - destruct (internalize_view E n w Hwf Hok Hres Hsvc) as (w1 & H1 & Hw1 & Hv1).
    destruct (internalize_view E n w1 Hw1 Hok Hres Hsvc) as (w2 & H2 & _ & Hv2).
    exists w1, w2. split; [done|]. split; [done|].
    intros F m. by rewrite Hv2, Hv1, intern_view_idem.
  - exists (update_after E n w), (update_after E n (update_after E n w)).
    rewrite !updateOtherProperties_after. split; [done|]. split; [done|].
    intros F m. rewrite !update_after_view by (done || by apply update_after_wf).
    destruct (N.eqb m n); [apply update_view_idem | done].
Qed.

Lemma annotation_idempotent_witness :
  (exists w1 w2, internalizeDevice (sample_env 0 0 sample_roots) 3 sample_world = Some (tt, w1) /\
     internalizeDevice (sample_env 0 0 sample_roots) 3 w1 = Some (tt, w2) /\
     forall F m, pview F w2 m = pview F w1 m) /\
  (exists u1 u2, updateOtherProperties (sample_env 0 0 sample_roots) 3 sample_world = Some (tt, u1) /\
     updateOtherProperties (sample_env 0 0 sample_roots) 3 u1 = Some (tt, u2) /\
     forall F m, pview F u2 m = pview F u1 m).
Proof.
  apply annotation_idempotent.
  - intros k. reflexivity.
  - apply wf_check_sound. vm_compute. reflexivity.
  - intros t. reflexivity.
  - intros t. reflexivity.
Defined.

(** ** The postcondition of [updateOtherProperties] *)

Lemma get_put_prop (n : N) (k : string) (l : N) (w : world) (k' : string) :
  dict_get (props_of (put_prop n k l w) n) k' =
  if String.eqb k' k then Some l else dict_get (props_of w n) k'.
Proof. rewrite props_of_put_prop. case_decide; [|done]. apply dict_get_set. Qed.

Lemma icon_after_get (E : env) (n lic : N) (w : world) (k : string) :
  String.eqb k "IOMediaIcon" = false ->
  dict_get (props_of (icon_after E n lic w) n) k = dict_get (props_of w n) k.
Proof.
  intros Hk. destruct (icon_after_cases E n lic w) as [->|[->|(l & d & _ & _ & _ & ->)]]; [done|done|].
  by rewrite get_put_prop, Hk.
Qed.

Lemma proto_after_get (E : env) (n li : N) (w : world) (k : string) :
  String.eqb k "Protocol Characteristics" = false ->
  dict_get (props_of (proto_after E n li w) n) k = dict_get (props_of w n) k.
Proof.
  intros Hk. destruct (proto_after_cases E n li w) as [->|[->|(d & _ & -> & _)]]; [done|done|].
  by rewrite get_put_prop, Hk.
Qed.

Lemma builtin_after_get (E : env) (n : N) (w : world) (k : string) :
  String.eqb k "built-in" = false ->
  dict_get (props_of (builtin_after E n w) n) k = dict_get (props_of w n) k.
Proof.
  intros Hk. destruct (builtin_after_cases E n w) as [->|(_ & ->)]; [done|].
  by rewrite get_put_prop, Hk.
Qed.

Lemma icon_after_props_ne (E : env) (n lic m : N) (w : world) :
  m <> n -> props_of (icon_after E n lic w) m = props_of w m.
Proof.
  intros Hm. destruct (icon_after_cases E n lic w) as [->|[->|(l & d & _ & _ & _ & ->)]]; [done|done|].
  rewrite props_of_put_prop. by case_decide.
Qed.

Lemma proto_after_props_ne (E : env) (n li m : N) (w : world) :
  m <> n -> props_of (proto_after E n li w) m = props_of w m.
Proof.
  intros Hm. destruct (proto_after_cases E n li w) as [->|[->|(d & _ & -> & _)]]; [done|done|].
  rewrite props_of_put_prop. by case_decide.
Qed.

Lemma builtin_after_props_ne (E : env) (n m : N) (w : world) :
  m <> n -> props_of (builtin_after E n w) m = props_of w m.
Proof.
  intros Hm. destruct (builtin_after_cases E n w) as [->|(_ & ->)]; [done|].
  rewrite props_of_put_prop. by case_decide.
Qed.

(** C7 (postcondition of [updateOtherProperties]), amended.  In a
    well-formed world and with every allocation succeeding: the
    interconnect location is set to a new ["Internal"] string [li]; an
    [IOMediaIcon] dictionary is replaced by a copy, at a new location, with
    [IOBundleResourceFile] set to a new ["Internal.icns"] string, and a
    present [IOMediaIcon] of another kind is left as it is; a
    [Protocol Characteristics] dictionary is replaced by a copy with the
    interconnect location set to [li], an absent one is created as
    [{PIL: li}], and a present one of another kind is left as it is;
    [built-in] is set to a new one-byte blob; every other key of the node,
    every other node and every object that existed before are unchanged. *)
Theorem update_properties_postcondition (E : env) (n : N) (w : world) :
  (forall k, e_alloc_fails E k = false) -> wf w ->
  exists w' li lic lb,
    updateOtherProperties E n w = Some (tt, w') /\
    w_heap w' !! li = Some (OString "Internal") /\
    w_heap w' !! lic = Some (OString "Internal.icns") /\
    dict_get (props_of w' n) PIL = Some li /\
    (forall l o, dict_get (props_of w n) "IOMediaIcon" = Some l -> w_heap w !! l = Some o ->
       match o with
       | ODict d => exists lc, dict_get (props_of w' n) "IOMediaIcon" = Some lc /\ lc <> l /\
                      w_heap w' !! lc = Some (ODict (dict_set d "IOBundleResourceFile" lic))
       | _ => dict_get (props_of w' n) "IOMediaIcon" = Some l
       end) /\
    (dict_get (props_of w n) "IOMediaIcon" = None -> dict_get (props_of w' n) "IOMediaIcon" = None) /\
    (forall l o, dict_get (props_of w n) "Protocol Characteristics" = Some l -> w_heap w !! l = Some o ->
       match o with
       | ODict d => exists lc, dict_get (props_of w' n) "Protocol Characteristics" = Some lc /\ lc <> l /\
                      w_heap w' !! lc = Some (ODict (dict_set d PIL li))
       | _ => dict_get (props_of w' n) "Protocol Characteristics" = Some l
       end) /\
    (dict_get (props_of w n) "Protocol Characteristics" = None ->
       exists lc, dict_get (props_of w' n) "Protocol Characteristics" = Some lc /\
                  w_heap w' !! lc = Some (ODict [(PIL, li)])) /\
    dict_get (props_of w' n) "built-in" = Some lb /\
    w_heap w' !! lb = Some (OData [1%Z]) /\
    (forall k, String.eqb k PIL = false -> String.eqb k "IOMediaIcon" = false ->
       String.eqb k "Protocol Characteristics" = false -> String.eqb k "built-in" = false ->
       dict_get (props_of w' n) k = dict_get (props_of w n) k) /\
    (forall l, (l < w_nalloc w)%N -> w_heap w' !! l = w_heap w !! l) /\
    (forall m, m <> n -> props_of w' m = props_of w m).
Proof.
  intros Hok Hwf. rewrite updateOtherProperties_after.
  unfold update_after, alloc_after. rewrite !Hok. cbn [orb].
  set (a := w_nalloc w).
  set (w2 := put_obj (OString "Internal.icns") (put_obj (OString "Internal") w)).
  set (w3 := put_prop n PIL a w2).
  set (w4 := icon_after E n (a + 1) w3).
  set (w5 := proto_after E n a w4).
  set (w6 := builtin_after E n w5).
  assert (X3 : extends w w3).
  { eapply extends_trans; [eapply extends_trans; [apply extends_put_obj | apply extends_put_obj]|].
    apply extends_put_prop. }
  destruct (icon_after_extends E n (a + 1) w3) as [X4 _]. fold w4 in X4.
  destruct (proto_after_extends E n a w4) as [X5 _]. fold w5 in X5.
  destruct (builtin_after_extends E n w5) as [X6 _]. fold w6 in X6.
  assert (N3 : w_nalloc w3 = (a + 2)%N) by (cbn; lia).
  assert (H3a : w_heap w3 !! a = Some (OString "Internal")).
  { cbn. rewrite lookup_insert_ne by lia. by rewrite lookup_insert_eq. }
  assert (H3b : w_heap w3 !! (a + 1)%N = Some (OString "Internal.icns")).
  { cbn. by rewrite lookup_insert_eq. }
  assert (G3 : forall k, dict_get (props_of w3 n) k =
                         if String.eqb k PIL then Some a else dict_get (props_of w n) k).
  { intros k. unfold w3. by rewrite get_put_prop. }
  assert (Hlt : forall l o, w_heap w !! l = Some o -> (l < a)%N) by (intros l o; by apply wf_lt).
  destruct X4 as [L4 X4], X5 as [L5 X5], X6 as [L6 X6], X3 as [L3 X3].
  rewrite N3 in L4.
  exists w6, a, (a + 1)%N, (w_nalloc w5). split; [done|].
  split; [rewrite X6, X5, X4 by lia; exact H3a|].
  split; [rewrite X6, X5, X4 by lia; exact H3b|].
  split.
  { unfold w6, w5, w4. rewrite builtin_after_get, proto_after_get, icon_after_get by done.
    rewrite G3. by rewrite String.eqb_refl. }
  split.
  { intros l o Hg Hl. pose proof (Hlt _ _ Hl) as Hla.
    assert (Hg3 : dict_get (props_of w3 n) "IOMediaIcon" = Some l) by (by rewrite G3).
    assert (Hl3 : w_heap w3 !! l = Some o) by (rewrite X3 by done; exact Hl).
    unfold w6, w5. rewrite builtin_after_get, proto_after_get by done.
    destruct o as [b|bs|s|d]; try (unfold w4, icon_after; by rewrite Hg3, Hl3).
    assert (E4 : w4 = put_prop n "IOMediaIcon" (w_nalloc w3)
                   (put_obj (ODict (dict_set d "IOBundleResourceFile" (a + 1))) w3)).
    { unfold w4, icon_after. by rewrite Hg3, Hl3, Hok. }
    assert (N4 : w_nalloc w4 = (w_nalloc w3 + 1)%N) by (rewrite E4; cbn; lia).
    exists (w_nalloc w3). rewrite E4 at 1. rewrite get_put_prop. split; [done|]. split; [lia|].
    rewrite X6, X5 by lia. rewrite E4. cbn. by rewrite lookup_insert_eq. }
  split.
  { intros Hg. assert (Hg3 : dict_get (props_of w3 n) "IOMediaIcon" = None) by (by rewrite G3).
    unfold w6, w5. rewrite builtin_after_get, proto_after_get by done.
    unfold w4, icon_after. by rewrite Hg3. }
  split.
  { intros l o Hg Hl. pose proof (Hlt _ _ Hl) as Hla.
    assert (Hg4 : dict_get (props_of w4 n) "Protocol Characteristics" = Some l).
    { unfold w4. rewrite icon_after_get by done. by rewrite G3. }
    assert (Hl4 : w_heap w4 !! l = Some o) by (rewrite X4, X3 by lia; exact Hl).
    unfold w6. rewrite builtin_after_get by done.
    destruct o as [b|bs|s|d]; try (unfold w5, proto_after; by rewrite Hg4, Hl4).
    assert (E5 : w5 = put_prop n "Protocol Characteristics" (w_nalloc w4)
                   (put_obj (ODict (dict_set d PIL a)) w4)).
    { unfold w5, proto_after. by rewrite Hg4, Hl4, Hok. }
    exists (w_nalloc w4). rewrite E5 at 1. rewrite get_put_prop. split; [done|]. split; [lia|].
    rewrite X6 by (rewrite E5; cbn; lia). rewrite E5. cbn. by rewrite lookup_insert_eq. }
  split.
  { intros Hg.
    assert (Hg4 : dict_get (props_of w4 n) "Protocol Characteristics" = None).
    { unfold w4. rewrite icon_after_get by done. by rewrite G3. }
    assert (E5 : w5 = put_prop n "Protocol Characteristics" (w_nalloc w4)
                   (put_obj (ODict [(PIL, a)]) w4)).
    { unfold w5, proto_after. by rewrite Hg4, Hok. }
    exists (w_nalloc w4). unfold w6. rewrite builtin_after_get by done.
    rewrite E5 at 1. rewrite get_put_prop. split; [done|].
    rewrite X6 by (rewrite E5; cbn; lia). rewrite E5. cbn. by rewrite lookup_insert_eq. }
  assert (E6 : w6 = put_prop n "built-in" (w_nalloc w5) (put_obj (OData [1%Z]) w5)).
  { unfold w6, builtin_after. by rewrite Hok. }
  split; [rewrite E6, get_put_prop; done|].
  split; [rewrite E6; cbn; by rewrite lookup_insert_eq|].
  split.
  { intros k H1 H2 H3 H4. unfold w6, w5, w4.
    rewrite builtin_after_get, proto_after_get, icon_after_get, G3 by done. by rewrite H1. }
  split.
  { intros l Hl. rewrite X6, X5, X4, X3 by lia. done. }
  intros m Hm. unfold w6, w5, w4.
  rewrite builtin_after_props_ne, proto_after_props_ne, icon_after_props_ne by done.
  unfold w3. rewrite props_of_put_prop. by case_decide.
Qed.

(** ** A failing allocation against the failure-free run *)

Lemma dict_get_In (d : list (string * N)) (k : string) (v : N) :
  dict_get d k = Some v -> In (k, v) d.
Proof.
  induction d as [|[k0 v0] r IH]; cbn; [done|].
  destruct (String.eqb k k0) eqn:H.
  - apply String.eqb_eq in H as ->. intros [= ->]. by left.
  - intros Hg. right. by apply IH.
Qed.

Lemma icon_after_env (E E' : env) (n lic : N) (u : world) :
  e_alloc_fails E' (w_nalloc u) = e_alloc_fails E (w_nalloc u) ->
  icon_after E' n lic u = icon_after E n lic u.
Proof. intros H. unfold icon_after. by rewrite H. Qed.

Lemma proto_after_env (E E' : env) (n li : N) (u : world) :
  e_alloc_fails E' (w_nalloc u) = e_alloc_fails E (w_nalloc u) ->
  proto_after E' n li u = proto_after E n li u.
Proof. intros H. unfold proto_after. by rewrite H. Qed.

Lemma builtin_after_env (E E' : env) (n : N) (u : world) :
  e_alloc_fails E' (w_nalloc u) = e_alloc_fails E (w_nalloc u) ->
  builtin_after E' n u = builtin_after E n u.
Proof. intros H. unfold builtin_after. by rewrite H. Qed.

Lemma agree_bump_put (K : string) (n b : N) (u : world) (o : obj) :
  (b <= w_nalloc u)%N ->
  agree (Some K) n b (bump u) (put_prop n K (w_nalloc u) (put_obj o u)).
Proof.
  intros Hb. split; [done|]. split.
  - intros l' Hl'. cbn. rewrite lookup_insert_ne by lia. done.
  - split.
    + intros m Hm. rewrite props_of_put_prop. case_decide; [congruence|done].
    + intros k Hk. rewrite get_put_prop.
      destruct (String.eqb_spec k K) as [->|]; [congruence|done].
Qed.

Lemma agree_put (Ko : option string) (K : string) (n b : N) (u v : world) (o : obj) :
  agree Ko n b u v -> (b <= w_nalloc u)%N ->
  agree Ko n b (put_prop n K (w_nalloc u) (put_obj o u)) (put_prop n K (w_nalloc v) (put_obj o v)).
Proof.
  intros (Hn & Hh & Hm & Hk) Hb. split; [cbn; lia|]. split.
  - intros l Hl. cbn. rewrite !lookup_insert_ne by lia. by apply Hh.
  - split.
    + intros m Hm'. rewrite !props_of_put_prop. case_decide; [congruence|]. by apply Hm.
    + intros k Hk'. rewrite !get_put_prop. rewrite Hn. destruct (String.eqb k K); [done|]. by apply Hk.
Qed.

(** A block whose allocation fails in one run and not in the other. *)
Lemma icon_after_fail (E E' : env) (n lic b : N) (u : world) :
  e_alloc_fails E' (w_nalloc u) = true -> e_alloc_fails E (w_nalloc u) = false ->
  (b <= w_nalloc u)%N ->
  (icon_after E' n lic u = u /\ icon_after E n lic u = u) \/
  (icon_after E' n lic u = bump u /\ agree (Some "IOMediaIcon") n b (bump u) (icon_after E n lic u)).
Proof.
  intros H' H Hb. unfold icon_after.
  destruct (dict_get (props_of u n) "IOMediaIcon") as [l|]; [|by left].
  destruct (w_heap u !! l) as [[]|]; try by left.
  rewrite H', H. right. split; [done|]. by apply agree_bump_put.
Qed.

Lemma proto_after_fail (E E' : env) (n li b : N) (u : world) :
  e_alloc_fails E' (w_nalloc u) = true -> e_alloc_fails E (w_nalloc u) = false ->
  (b <= w_nalloc u)%N ->
  (proto_after E' n li u = u /\ proto_after E n li u = u) \/
  (proto_after E' n li u = bump u /\
   agree (Some "Protocol Characteristics") n b (bump u) (proto_after E n li u)).
Proof.
  intros H' H Hb. unfold proto_after.
  destruct (dict_get (props_of u n) "Protocol Characteristics") as [l|].
  - destruct (w_heap u !! l) as [[]|]; try by left.
    rewrite H', H. right. split; [done|]. by apply agree_bump_put.
  - rewrite H', H. right. split; [done|]. by apply agree_bump_put.
Qed.

Lemma builtin_after_fail (E E' : env) (n b : N) (u : world) :
  e_alloc_fails E' (w_nalloc u) = true -> e_alloc_fails E (w_nalloc u) = false ->
  (b <= w_nalloc u)%N ->
  builtin_after E' n u = bump u /\ agree (Some "built-in") n b (bump u) (builtin_after E n u).
Proof.
  intros H' H Hb. unfold builtin_after. rewrite H', H. split; [done|]. by apply agree_bump_put.
Qed.

(** A block whose allocation succeeds in both runs keeps them agreeing. *)
Lemma icon_after_agree (Ko : option string) (E E' : env) (n lic b : N) (u v : world) :
  agree Ko n b u v -> Ko <> Some "IOMediaIcon" -> (b <= w_nalloc u)%N ->
  (forall l, dict_get (props_of v n) "IOMediaIcon" = Some l -> (l < b)%N) ->
  e_alloc_fails E' (w_nalloc u) = false -> e_alloc_fails E (w_nalloc v) = false ->
  agree Ko n b (icon_after E' n lic u) (icon_after E n lic v).
Proof.
  intros Hag HK Hb Hr H' H. pose proof Hag as (Hn & Hh & _ & Hk).
  unfold icon_after. rewrite (Hk "IOMediaIcon" HK), H', H.
  destruct (dict_get (props_of v n) "IOMediaIcon") as [l|] eqn:Hg; [|done].
  rewrite (Hh l (Hr l eq_refl)).
  destruct (w_heap v !! l) as [[]|]; try done. by apply agree_put.
Qed.

Lemma proto_after_agree (Ko : option string) (E E' : env) (n li b : N) (u v : world) :
  agree Ko n b u v -> Ko <> Some "Protocol Characteristics" -> (b <= w_nalloc u)%N ->
  (forall l, dict_get (props_of v n) "Protocol Characteristics" = Some l -> (l < b)%N) ->
  e_alloc_fails E' (w_nalloc u) = false -> e_alloc_fails E (w_nalloc v) = false ->
  agree Ko n b (proto_after E' n li u) (proto_after E n li v).
Proof.
  intros Hag HK Hb Hr H' H. pose proof Hag as (Hn & Hh & _ & Hk).
  unfold proto_after. rewrite (Hk "Protocol Characteristics" HK), H', H.
  destruct (dict_get (props_of v n) "Protocol Characteristics") as [l|] eqn:Hg;
    [|by apply agree_put].
  rewrite (Hh l (Hr l eq_refl)).
  destruct (w_heap v !! l) as [[]|]; try done. by apply agree_put.
Qed.

Lemma builtin_after_agree (Ko : option string) (E E' : env) (n b : N) (u v : world) :
  agree Ko n b u v -> Ko <> Some "built-in" -> (b <= w_nalloc u)%N ->
  e_alloc_fails E' (w_nalloc u) = false -> e_alloc_fails E (w_nalloc v) = false ->
  agree Ko n b (builtin_after E' n u) (builtin_after E n v).
Proof.
  intros Hag HK Hb H' H. unfold builtin_after. rewrite H', H. by apply agree_put.
Qed.

Lemma agree_finish (K : string) (n b : N) (w1 w0 w : world) :
  agree (Some K) n b w1 w0 -> dict_get (props_of w1 n) K = dict_get (props_of w n) K ->
  (forall k, k <> K -> dict_get (props_of w1 n) k = dict_get (props_of w0 n) k) /\
  (dict_get (props_of w1 n) K = dict_get (props_of w0 n) K \/
   dict_get (props_of w1 n) K = dict_get (props_of w n) K) /\
  (forall m, m <> n -> props_of w1 m = props_of w0 m).
Proof.
  intros (_ & _ & Hm & Hk) HK. split; [|split; [by right | done]].
  intros k Hne. apply Hk. congruence.
Qed.

Lemma props_alloc_after (E : env) (o : obj) (w : world) : w_props (alloc_after E o w) = w_props w.
Proof. unfold alloc_after. by destruct (e_alloc_fails E (w_nalloc w)). Qed.

(** C9 (allocation failures), amended.  Compare a run of
    [updateOtherProperties] in which allocation number [j] fails with the
    run in which no allocation fails, in a well-formed world.  The call
    returns in every case (and so does [setBuiltIn]).  When [j] is the
    ["Internal"] or the ["Internal.icns"] string, no property of any node
    is written: all four updates are skipped.  When [j] is a later
    allocation (a dictionary copy, a new dictionary or the [built-in]
    blob), exactly one key [K] of the node (the icon, the protocol
    characteristics or [built-in]) may differ from the failure-free run and
    then keeps its old value; every other key and every other node are as in
    the failure-free run.  A failing [built-in] blob in [setBuiltIn] writes
    nothing. *)
Theorem allocation_failure_local (E : env) (n : N) (w : world) (j : N) :
  (forall k, e_alloc_fails E k = false) -> wf w ->
  updateOtherProperties (fail_at E j) n w = Some (tt, update_after (fail_at E j) n w) /\
  setBuiltIn (fail_at E j) n w = Some (tt, builtin_after (fail_at E j) n w) /\
  ((j = w_nalloc w \/ j = w_nalloc w + 1)%N -> w_props (update_after (fail_at E j) n w) = w_props w) /\
  (j = w_nalloc w -> w_props (builtin_after (fail_at E j) n w) = w_props w) /\
  ((w_nalloc w + 1 < j)%N ->
   exists K, (K = "IOMediaIcon" \/ K = "Protocol Characteristics" \/ K = "built-in") /\
     (forall k, k <> K -> dict_get (props_of (update_after (fail_at E j) n w) n) k =
                         dict_get (props_of (update_after E n w) n) k) /\
     (dict_get (props_of (update_after (fail_at E j) n w) n) K =
        dict_get (props_of (update_after E n w) n) K \/
      dict_get (props_of (update_after (fail_at E j) n w) n) K = dict_get (props_of w n) K) /\
     (forall m, m <> n -> props_of (update_after (fail_at E j) n w) m = props_of (update_after E n w) m)).
Proof.
  intros Hok Hwf. set (E1 := fail_at E j).
  assert (HE1 : forall k, e_alloc_fails E1 k = N.eqb k j) by done.
  split; [apply updateOtherProperties_after|].
  split; [apply setBuiltIn_eq|].
  split.
  { intros Hj. unfold update_after.
    assert (Hf : e_alloc_fails E1 (w_nalloc w) || e_alloc_fails E1 (w_nalloc w + 1) = true).
    { rewrite !HE1. destruct Hj as [->| ->]; rewrite N.eqb_refl; [done|]. apply orb_true_r. }
    rewrite Hf. by rewrite !props_alloc_after. }
  split.
  { intros ->. unfold builtin_after. by rewrite HE1, N.eqb_refl. }
  intros Hj. set (a := w_nalloc w).
  set (w3 := put_prop n PIL a (put_obj (OString "Internal.icns") (put_obj (OString "Internal") w))).
  assert (N3 : w_nalloc w3 = (a + 2)%N) by (cbn; lia).
  assert (U : forall E', e_alloc_fails E' a = false -> e_alloc_fails E' (a + 1)%N = false ->
                update_after E' n w = builtin_after E' n (proto_after E' n a (icon_after E' n (a + 1) w3))).
  { intros E' H1 H2. unfold update_after, alloc_after. fold a. rewrite H1, H2. cbn [orb].
    assert (H2' : e_alloc_fails E' (w_nalloc (put_obj (OString "Internal") w)) = false) by exact H2.
    by rewrite H2'. }
  rewrite (U E1), (U E) by (rewrite ?HE1; try apply Hok; apply N.eqb_neq; lia).
  assert (G3 : forall k, String.eqb k PIL = false -> dict_get (props_of w3 n) k = dict_get (props_of w n) k).
  { intros k Hk. unfold w3. by rewrite get_put_prop, Hk. }
  assert (Href : forall k l, String.eqb k PIL = false -> dict_get (props_of w3 n) k = Some l -> (l < a)%N).
  { intros k l Hk Hg. rewrite G3 in Hg by done. apply dict_get_In in Hg.
    exact (proj2 (proj2 Hwf) _ _ _ Hg). }
  assert (Fne : forall k, k <> j -> e_alloc_fails E1 k = e_alloc_fails E k).
  { intros k Hk. rewrite HE1, Hok. by apply N.eqb_neq. }
  destruct (icon_after_extends E n (a + 1) w3) as [[L4 _] _].
  destruct (N.eqb_spec (a + 2) j) as [Ej|Nj].
  - (* [j] is the first allocation after the two strings *)
    assert (T3 : e_alloc_fails E1 (w_nalloc w3) = true) by (rewrite HE1, N3; by apply N.eqb_eq).
    destruct (icon_after_fail E E1 n (a + 1) a w3 T3 (Hok _) ltac:(lia)) as [[I1 I0]|[I1 Ag]].
    + rewrite I1, I0.
      destruct (proto_after_fail E E1 n a a w3 T3 (Hok _) ltac:(lia)) as [[P1 P0]|[P1 Ag]].
      * rewrite P1, P0.
        destruct (builtin_after_fail E E1 n a w3 T3 (Hok _) ltac:(lia)) as [B1 Ag].
        rewrite B1. exists "built-in". split; [by right; right|].
        apply (agree_finish _ n a _ _ w Ag). rewrite props_of_bump. by apply G3.
      * rewrite P1. exists "Protocol Characteristics". split; [by right; left|].
        apply (agree_finish _ n a _ _ w).
        -- apply builtin_after_agree; [done | done | cbn; lia | | apply Hok].
           rewrite HE1. apply N.eqb_neq. cbn. lia.
        -- rewrite builtin_after_get by done. rewrite props_of_bump. by apply G3.
    + rewrite I1. exists "IOMediaIcon". split; [by left|].
      apply (agree_finish _ n a _ _ w).
      * apply builtin_after_agree; [ | done | | | apply Hok].
        -- apply proto_after_agree; [done | done | cbn; lia | | | apply Hok].
           ++ intros l Hg. rewrite icon_after_get in Hg by done. by apply (Href "Protocol Characteristics" _ eq_refl Hg).
           ++ rewrite HE1. apply N.eqb_neq. cbn. lia.
        -- destruct (proto_after_extends E1 n a (bump w3)) as [[L5 _] _]. cbn in L5. lia.
        -- rewrite HE1. apply N.eqb_neq.
           destruct (proto_after_cases E1 n a (bump w3)) as [->|[->|(d & _ & -> & _)]]; cbn; lia.
      * rewrite builtin_after_get, proto_after_get by done. rewrite props_of_bump. by apply G3.
  - rewrite (icon_after_env E E1) by (apply Fne; lia).
    set (u4 := icon_after E n (a + 1) w3).
    assert (Hr4 : forall l, dict_get (props_of u4 n) "Protocol Characteristics" = Some l -> (l < a)%N).
    { intros l Hg. unfold u4 in Hg. rewrite icon_after_get in Hg by done. by apply (Href "Protocol Characteristics" _ eq_refl Hg). }
    destruct (N.eqb_spec (w_nalloc u4) j) as [E4|N4].
    + assert (T4 : e_alloc_fails E1 (w_nalloc u4) = true) by (rewrite HE1; by apply N.eqb_eq).
      destruct (proto_after_fail E E1 n a a u4 T4 (Hok _) ltac:(lia)) as [[P1 P0]|[P1 Ag]].
      * rewrite P1, P0.
        destruct (builtin_after_fail E E1 n a u4 T4 (Hok _) ltac:(lia)) as [B1 Ag].
        rewrite B1. exists "built-in". split; [by right; right|].
        apply (agree_finish _ n a _ _ w Ag). rewrite props_of_bump. unfold u4.
        rewrite icon_after_get by done. by apply G3.
      * rewrite P1. exists "Protocol Characteristics". split; [by right; left|].
        apply (agree_finish _ n a _ _ w).
        -- apply builtin_after_agree; [done | done | cbn; lia | | apply Hok].
           rewrite HE1. apply N.eqb_neq. cbn. lia.
        -- rewrite builtin_after_get by done. rewrite props_of_bump. unfold u4.
           rewrite icon_after_get by done. by apply G3.
    + rewrite (proto_after_env E E1) by (by apply Fne).
      set (u5 := proto_after E n a u4).
      destruct (N.eqb_spec (w_nalloc u5) j) as [E5|N5].
      * assert (T5 : e_alloc_fails E1 (w_nalloc u5) = true) by (rewrite HE1; by apply N.eqb_eq).
        destruct (proto_after_extends E n a u4) as [[L5 _] _]. fold u5 in L5.
        destruct (builtin_after_fail E E1 n a u5 T5 (Hok _) ltac:(lia)) as [B1 Ag].
        rewrite B1. exists "built-in". split; [by right; right|].
        apply (agree_finish _ n a _ _ w Ag). rewrite props_of_bump. unfold u5, u4.
        rewrite proto_after_get, icon_after_get by done. by apply G3.
      * rewrite (builtin_after_env E E1) by (by apply Fne).
        exists "built-in". split; [by right; right|].
        split; [done|]. split; [by left | done].
Qed.

(** ** The walker selects no bus root *)

Lemma selects_app (t1 t2 : list event) : selects (t1 ++ t2) = (selects t1 ++ selects t2)%list.
Proof. induction t1 as [|[] r IH]; cbn; rewrite ?IH; done. Qed.

Lemma nosel_bind {A B} (m : M A) (k : A -> M B) :
  nosel m -> (forall a, nosel (k a)) -> nosel (bind m k).
Proof.
  intros Hm Hk w. destruct (Hm w) as (a & w1 & s1 & H1 & T1 & S1).
  destruct (Hk a w1) as (b & w2 & s2 & H2 & T2 & S2).
  exists b, w2, (s1 ++ s2)%list. unfold bind. rewrite H1, H2. split; [done|]. split.
  - by rewrite T2, T1, app_assoc.
  - by rewrite selects_app, S1, S2.
Qed.

Lemma nosel_ret {A} (a : A) : nosel (ret a).
Proof. intros w. exists a, w, []. by rewrite app_nil_r. Qed.

Lemma nosel_same {A} (m : M A) :
  (forall w, exists a w', m w = Some (a, w') /\ w_trace w' = w_trace w) -> nosel m.
Proof.
  intros H w. destruct (H w) as (a & w' & Hm & T). exists a, w', []. by rewrite app_nil_r.
Qed.

Lemma nosel_log (e : event) : (forall n, e <> ESelectRoot n) -> nosel (log e).
Proof.
  intros He w. exists tt, (mkWorld (w_heap w) (w_props w) (w_nalloc w) (w_clock w) (w_trace w ++ [e])), [e].
  split; [done|]. split; [done|]. destruct e; cbn; try done. by destruct (He n).
Qed.

Lemma nosel_sleep (ms : nat) : nosel (sleep ms).
Proof. intros w. eexists _, _, [ESleep ms]. done. Qed.

Lemma trace_alloc_after (E : env) (o : obj) (w : world) : w_trace (alloc_after E o w) = w_trace w.
Proof. unfold alloc_after. by destruct (e_alloc_fails E (w_nalloc w)). Qed.

Lemma trace_update_after (E : env) (n : N) (w : world) : w_trace (update_after E n w) = w_trace w.
Proof.
  unfold update_after. destruct (_ || _); [by rewrite !trace_alloc_after|].
  destruct (builtin_after_cases E n (proto_after E n (w_nalloc w) (icon_after E n (w_nalloc w + 1)
    (put_prop n PIL (w_nalloc w) (alloc_after E (OString "Internal.icns") (alloc_after E (OString "Internal") w))))))
    as [->|(_ & ->)]; cbn;
  (destruct (proto_after_cases E n (w_nalloc w) (icon_after E n (w_nalloc w + 1)
    (put_prop n PIL (w_nalloc w) (alloc_after E (OString "Internal.icns") (alloc_after E (OString "Internal") w)))))
    as [->|[->|(d & _ & -> & _)]]); cbn;
  (destruct (icon_after_cases E n (w_nalloc w + 1)
    (put_prop n PIL (w_nalloc w) (alloc_after E (OString "Internal.icns") (alloc_after E (OString "Internal") w))))
    as [->|[->|(l & d' & _ & _ & _ & ->)]]); cbn; by rewrite !trace_alloc_after.
Qed.

Lemma updateOtherProperties_nosel (E : env) (n : N) : nosel (updateOtherProperties E n).
Proof.
  apply nosel_same. intros w. exists tt, (update_after E n w).
  split; [apply updateOtherProperties_after | apply trace_update_after].
Qed.

Lemma setBuiltIn_nosel (E : env) (n : N) : nosel (setBuiltIn E n).
Proof.
  apply nosel_same. intros w. exists tt, (builtin_after E n w). split; [apply setBuiltIn_eq|].
  by destruct (builtin_after_cases E n w) as [->|(_ & ->)].
Qed.

Lemma wait_flag_nosel (E : env) (n : N) (key : string) (k : nat) : nosel (wait_flag E n key k).
Proof.
  induction k as [|k IH]; cbn [wait_flag];
    (apply nosel_bind; [apply nosel_same; intros w; by eexists _, w|]);
    intros b; destruct b; try apply nosel_ret.
  apply nosel_bind; [apply nosel_sleep | intros _; exact IH].
Qed.

Lemma update_drivers_nosel (E : env) (n : N) (ds : list N) : nosel (update_drivers E n ds).
Proof.
  induction ds as [|d r IH]; cbn [update_drivers]; [apply nosel_ret|].
  apply nosel_bind; [|intros _; exact IH].
  destruct (N.eqb d n); [apply nosel_ret | apply updateOtherProperties_nosel].
Qed.

Lemma pass_loop_nosel (E : env) (n : N) (rem pass : nat) : nosel (pass_loop E n rem pass).
Proof.
  revert pass; induction rem as [|r IH]; intros pass; cbn [pass_loop]; [apply nosel_ret|].
  apply nosel_bind; [|intros _; apply IH].
  unfold pass_body. apply nosel_bind; [apply updateOtherProperties_nosel|]. intros _.
  apply nosel_bind; [apply nosel_same; intros w; by eexists _, w|]. intros ds.
  apply nosel_bind; [apply update_drivers_nosel|]. intros _.
  destruct (Nat.ltb pass 2); [apply nosel_sleep | apply nosel_ret].
Qed.

Lemma internalizeDevice_nosel (E : env) (n : N) : nosel (internalizeDevice E n).
Proof.
  unfold internalizeDevice.
  apply nosel_bind; [by apply nosel_log|]. intros _.
  apply nosel_bind; [apply setBuiltIn_nosel|]. intros _.
  apply nosel_bind; [apply wait_flag_nosel|]. intros t.
  destruct (t <=? 0)%Z; [apply nosel_ret | apply pass_loop_nosel].
Qed.

Lemma recurseBridge_nosel (E : env) (t : dtree) : nosel (recurseBridge E t).
Proof.
  induction t as [id kids Hkids] using dtree_ind'.
  rewrite recurseBridge_eq. apply nosel_bind; [by apply nosel_log|]. intros _.
  induction Hkids as [|c cs Hc _ IH]; cbn [walk_list]; [apply nosel_ret|].
  apply nosel_bind; [|intros _; exact IH].
  intros w. rewrite visit_eq.
  destruct (class_code_of w (dt_id c)) as [k|]; [|exists tt, w, []; by rewrite app_nil_r].
  destruct (is_storage k); [apply internalizeDevice_nosel|].
  destruct (Z.eqb k PCIBridge); [|exists tt, w, []; by rewrite app_nil_r].
  revert w. apply nosel_bind; [apply wait_flag_nosel|]. intros t.
  destruct (0 <? t)%Z; [exact Hc | apply nosel_ret].
Qed.

(** ** The root locator *)

Lemma wait_forever_ready (E : env) (spin : nat) (n : N) (key : string) (w : world) :
  e_flag E n key (w_clock w) = true -> wait_forever E spin n key w = Some (tt, w).
Proof. intros H. destruct spin; cbn [wait_forever]; unfold bind, read_flag; rewrite H; done. Qed.

Lemma scan_unready (E : env) (spin : nat) (found : bool) (L : list dtree) (w : world) :
  existsb (pc_root E) L = true ->
  scan_root E spin false found L w =
  Some ((true, found), mkWorld (w_heap w) (w_props w) (w_nalloc w) (w_clock w + 1000) (w_trace w ++ [ESleep 1000])).
Proof.
  induction L as [|c cs IH]; intros H; [discriminate|].
  cbn [existsb] in H. cbn [scan_root]. change (is_pc_name (e_name E (dt_id c))) with (pc_root E c).
  destruct (pc_root E c); [done | exact (IH H)].
Qed.

Lemma scan_ready (E : env) (spin : nat) (L : list dtree) :
  (forall c, In c L -> pc_root E c = true -> forall t, e_flag E (dt_id c) "IOPCIConfigured" t = true) ->
  forall found w, exists w' s,
    scan_root E spin true found L w = Some ((true, found || existsb (pc_root E) L), w') /\
    w_trace w' = (w_trace w ++ s)%list /\ selects s = map dt_id (List.filter (pc_root E) L).
Proof.
  induction L as [|c cs IH]; intros Hcfg found w.
  - exists w, []. cbn. by rewrite orb_false_r, app_nil_r.
  - cbn [scan_root existsb map]. change (is_pc_name (e_name E (dt_id c))) with (pc_root E c).
    destruct (pc_root E c) eqn:Hp.
    + set (w1 := mkWorld (w_heap w) (w_props w) (w_nalloc w) (w_clock w) (w_trace w ++ [ESelectRoot (dt_id c)])).
      destruct (recurseBridge_nosel E c w1) as (a & w2 & s2 & Hr & T2 & S2).
      destruct (IH (fun c' Hc' => Hcfg c' (or_intror Hc')) true w2) as (w3 & s3 & H3 & T3 & S3).
      exists w3, (ESelectRoot (dt_id c) :: s2 ++ s3)%list. split; [|split].
      * change (bind (log _) _ w) with
          (bind (wait_forever E spin (dt_id c) "IOPCIConfigured")
             (fun _ => bind (recurseBridge E c) (fun _ => scan_root E spin true true cs)) w1).
        unfold bind at 1. rewrite (wait_forever_ready E spin _ _ w1) by (apply Hcfg; [left|]; done).
        unfold bind. rewrite Hr, H3. cbn. by rewrite orb_true_r.
      * rewrite T3, T2. cbn [w1 w_trace]. by rewrite <- !app_assoc.
      * cbn [selects]. rewrite selects_app, S2, S3. cbn [List.filter]. rewrite Hp. reflexivity.
    + destruct (IH (fun c' Hc' => Hcfg c' (or_intror Hc')) found w) as (w3 & s3 & H3 & T3 & S3).
      exists w3, s3. cbn [orb List.filter]. rewrite Hp. split; [exact H3|]. by split.
Qed.

Lemma root_loop_unfold (E : env) (spin fuel : nat) (r : N) (ready found : bool) (w : world) :
  root_loop E spin fuel r ready found w =
  (do ks <- root_children E; do rf <- scan_root E spin ready found ks;
   if (N.ltb r ceiling && negb (snd rf))%bool then
     match fuel with O => ret tt | S f => root_loop E spin f (N.succ r) (fst rf) (snd rf) end
   else ret tt) w.
Proof. by destruct fuel. Qed.

(** With a fixed enumeration holding a bus-root candidate, and candidates
    configured, [processRoot] makes two scans: the first pauses 1000 ms at
    the first candidate, the second selects every candidate in order. *)
Lemma processRoot_two_scans (E : env) (spin : nat) (L : list dtree) (w : world) :
  (forall t, e_root E t = L) ->
  existsb (pc_root E) L = true ->
  (forall c, In c L -> pc_root E c = true -> forall t, e_flag E (dt_id c) "IOPCIConfigured" t = true) ->
  exists w' s, processRoot E spin w = Some (tt, w') /\
    w_trace w' = (w_trace w ++ ESleep 1000 :: s)%list /\ selects s = map dt_id (List.filter (pc_root E) L).
Proof.
  intros HL Hpc Hcfg. unfold processRoot.
  assert (Hf : exists k, N.to_nat ceiling = S (S k)) by (exists (N.to_nat ceiling - 2); unfold ceiling; lia).
  destruct Hf as [k ->].
  rewrite root_loop_unfold. unfold bind at 1, root_children. rewrite HL.
  unfold bind at 1. rewrite scan_unready by exact Hpc.
  set (w1 := mkWorld (w_heap w) (w_props w) (w_nalloc w) (w_clock w + 1000) (w_trace w ++ [ESleep 1000])).
  change (N.ltb 0 ceiling) with true. cbn [andb negb snd fst].
  rewrite root_loop_unfold. unfold bind at 1, root_children. rewrite HL.
  destruct (scan_ready E spin L Hcfg false w1) as (w2 & s & H2 & T2 & S2).
  unfold bind at 1. rewrite H2. rewrite Hpc. cbn [orb andb negb snd].
  rewrite andb_false_r. exists w2, s. split; [done|]. split; [|done].
  rewrite T2. cbn [w1 w_trace]. by rewrite <- app_assoc.
Qed.

Lemma scan_none (E : env) (spin : nat) (ready found : bool) (L : list dtree) (w : world) :
  (forall c, In c L -> pc_root E c = false) ->
  scan_root E spin ready found L w = Some ((ready, found), w).
Proof.
  revert w. induction L as [|c cs IH]; intros w H; [done|].
  cbn [scan_root]. change (is_pc_name (e_name E (dt_id c))) with (pc_root E c).
  rewrite (H c (or_introl eq_refl)). apply IH. intros c' Hc'. apply H. by right.
Qed.

(** Without any bus-root candidate the locator runs out its iterations
    and returns, leaving the world as it was. *)
Lemma root_loop_none (E : env) (spin fuel : nat) :
  (forall t c, In c (e_root E t) -> pc_root E c = false) ->
  forall r ready found w, root_loop E spin fuel r ready found w = Some (tt, w).
Proof.
  intros H. induction fuel as [|f IH]; intros r ready found w;
    rewrite root_loop_unfold; unfold bind at 1, root_children; unfold bind;
    rewrite scan_none by apply H; cbn [fst snd];
    (destruct (_ && _)%bool; [|done]); [done | apply IH].
Qed.

(** C1 (bus-root selection), amended.  Let the children of "/" be a fixed
    list [L] holding at least one bus-root candidate (a name starting with
    "PC"), each candidate being configured.  The first scan stops at the
    first candidate, pauses 1000 ms and selects nothing; the second scan
    selects every candidate of [L] in enumeration order, the first one
    included (and a lone candidate too), after which the locator stops. *)
Theorem root_selection (E : env) (spin : nat) (L : list dtree) (w : world) :
  (forall t, e_root E t = L) ->
  existsb (pc_root E) L = true ->
  (forall c, In c L -> pc_root E c = true -> forall t, e_flag E (dt_id c) "IOPCIConfigured" t = true) ->
  exists w' s, processRoot E spin w = Some (tt, w') /\
    w_trace w' = (w_trace w ++ ESleep 1000 :: s)%list /\
    selects s = map dt_id (List.filter (pc_root E) L) /\
    hd_error (selects s) = option_map dt_id (hd_error (List.filter (pc_root E) L)).
Proof.
  intros HL Hpc Hcfg.
  destruct (processRoot_two_scans E spin L w HL Hpc Hcfg) as (w' & s & H1 & H2 & H3).
  exists w', s. split; [done|]. split; [done|]. split; [done|].
  rewrite H3. by destruct (List.filter (pc_root E) L).
Qed.

Lemma root_selection_witness :
  exists w' s, processRoot (sample_env 0 0 sample_roots) 0 sample_world = Some (tt, w') /\
    selects s = [1%N; 2%N].
Proof.
  destruct (root_selection (sample_env 0 0 sample_roots) 0 sample_roots sample_world)
    as (w' & s & H1 & _ & H3 & _).
  - intros t. reflexivity.
  - vm_compute. reflexivity.
  - intros c _ _ t. reflexivity.
  - exists w', s. split; [exact H1|]. rewrite H3. vm_compute. reflexivity.
Defined.

Lemma root_selection_counterexample :
  (exists w', processRoot (sample_env 0 0 sample_roots) 0 sample_world = Some (tt, w') /\
     selects (w_trace w') = [1%N; 2%N]) /\
  (exists w', processRoot (sample_env 0 0 [DNode 2 []]) 0 sample_world = Some (tt, w') /\
     selects (w_trace w') = [2%N]).
Proof.
  split.
  - destruct (processRoot_two_scans (sample_env 0 0 sample_roots) 0 sample_roots sample_world)
      as (w' & s & H1 & H2 & H3);
      [intros t; reflexivity | vm_compute; reflexivity | intros c _ _ t; reflexivity|].
    exists w'. split; [exact H1|]. rewrite H2, selects_app. cbn [selects]. rewrite H3.
    vm_compute. reflexivity.
  - destruct (processRoot_two_scans (sample_env 0 0 [DNode 2 []]) 0 [DNode 2 []] sample_world)
      as (w' & s & H1 & H2 & H3);
      [intros t; reflexivity | vm_compute; reflexivity | intros c _ _ t; reflexivity|].
    exists w'. split; [exact H1|]. rewrite H2, selects_app. cbn [selects]. rewrite H3.
    vm_compute. reflexivity.
Qed.

(** C2 (root not found), amended.  [start] returns [true] whenever
    [IOService::start] succeeded and [processRoot] returned, and [false]
    only when [IOService::start] failed.  In particular, when no child of
    "/" is ever a bus-root candidate, the locator runs out its iteration
    ceiling and returns, and [start] still registers the service and
    returns [true]: the missing root is not reported. *)
Theorem root_not_found_unreported (E : env) :
  ((forall t c, In c (e_root E t) -> pc_root E c = false) ->
   forall spin w, start E spin true w =
     Some (true, mkWorld (w_heap w) (w_props w) (w_nalloc w) (w_clock w) (w_trace w ++ [ERegister]))) /\
  (forall spin w b w', start E spin true w = Some (b, w') -> b = true) /\
  (forall spin w, start E spin false w = Some (false, w)).
Proof.
  split; [|split].
  - intros H spin w. unfold start, processRoot. unfold bind at 1.
    rewrite (root_loop_none E spin _ H). reflexivity.
  - intros spin w b w'. unfold start. unfold bind at 1.
    destruct (processRoot E spin w) as [[u w1]|]; [|discriminate].
    intros Hs. by injection Hs as <-.
  - intros spin w. reflexivity.
Qed.

Lemma root_not_found_unreported_witness :
  start (sample_env 0 0 [DNode 3 []]) 0 true sample_world =
  Some (true, mkWorld (w_heap sample_world) (w_props sample_world) (w_nalloc sample_world)
                      (w_clock sample_world) (w_trace sample_world ++ [ERegister])).
Proof.
  refine (proj1 (root_not_found_unreported (sample_env 0 0 [DNode 3 []])) _ 0 sample_world).
  intros t c [ <- | [] ]. reflexivity.
Defined.

Lemma root_not_found_counterexample :
  exists w', start (sample_env 0 0 [DNode 3 []]) 0 true sample_world = Some (true, w') /\
    selects (w_trace w') = [].
Proof.
  assert (H : forall t c, In c (e_root (sample_env 0 0 [DNode 3 []]) t) ->
                pc_root (sample_env 0 0 [DNode 3 []]) c = false)
    by (intros t c [ <- | [] ]; reflexivity).
  eexists. split.
  - unfold start, processRoot. unfold bind at 1. rewrite (root_loop_none _ 0 _ H). reflexivity.
  - vm_compute. reflexivity.
Qed.

Lemma update_properties_postcondition_witness :
  exists w' li, updateOtherProperties (sample_env 0 0 sample_roots) 7 icon_world = Some (tt, w') /\
    w_heap w' !! li = Some (OString "Internal") /\ dict_get (props_of w' 7) PIL = Some li.
Proof.
  destruct (update_properties_postcondition (sample_env 0 0 sample_roots) 7 icon_world)
    as (w' & li & _ & _ & H1 & H2 & _ & H4 & _).
  - intros k. reflexivity.
  - apply wf_check_sound. vm_compute. reflexivity.
  - exists w', li. split; [exact H1|]. split; [exact H2 | exact H4].
Defined.

Lemma update_properties_counterexample :
  exists w', updateOtherProperties (sample_env 0 0 sample_roots) 7 icon_world = Some (tt, w') /\
    dict_get (props_of w' 7) "Protocol Characteristics" = Some 203%N /\
    w_heap w' !! 203%N = Some (OString "SATA").
Proof.
  eexists. split; [apply updateOtherProperties_after|]. vm_compute. split; reflexivity.
Qed.

Lemma allocation_failure_local_witness :
  updateOtherProperties (fail_at (sample_env 0 0 sample_roots) 1003) 3 sample_world =
    Some (tt, update_after (fail_at (sample_env 0 0 sample_roots) 1003) 3 sample_world) /\
  exists K, K = "built-in" /\
    forall k, k <> K ->
      dict_get (props_of (update_after (fail_at (sample_env 0 0 sample_roots) 1003) 3 sample_world) 3) k =
      dict_get (props_of (update_after (sample_env 0 0 sample_roots) 3 sample_world) 3) k.
Proof.
  destruct (allocation_failure_local (sample_env 0 0 sample_roots) 3 sample_world 1003)
    as (H1 & _ & _ & _ & H5).
  - intros k. reflexivity.
  - apply wf_check_sound. vm_compute. reflexivity.
  - split; [exact H1|].
    destruct H5 as (K & HK & Hk & _); [vm_compute; reflexivity|].
    exists K. split; [|exact Hk].
    destruct HK as [ -> | [ -> | -> ] ]; [exfalso|exfalso|reflexivity].
    + specialize (Hk "built-in" ltac:(discriminate)). revert Hk. vm_compute. discriminate.
    + specialize (Hk "built-in" ltac:(discriminate)). revert Hk. vm_compute. discriminate.
Defined.

Lemma allocation_failure_counterexample :
  exists w', updateOtherProperties (fail_at (sample_env 0 0 sample_roots) 1001) 3 sample_world = Some (tt, w') /\
    w_heap w' !! 1000%N = Some (OString "Internal") /\
    dict_get (props_of w' 3) PIL = None /\
    dict_get (props_of w' 3) "Protocol Characteristics" = None /\
    dict_get (props_of w' 3) "built-in" = None.
Proof.
  eexists. split; [apply updateOtherProperties_after|]. vm_compute. repeat split.
Qed.

(** ** Frames: what each routine may write *)

Lemma frame_bind {A B} (S : N -> Prop) (m : M A) (k : A -> M B) :
  frame S m -> (forall a, frame S (k a)) -> frame S (bind m k).
Proof.
  intros Hm Hk w b w2. unfold bind. destruct (m w) as [[a w1]|] eqn:E1; [|discriminate].
  intros H2. destruct (Hm _ _ _ E1) as [X1 P1]. destruct (Hk a _ _ _ H2) as [X2 P2].
  split; [by eapply extends_trans|]. intros x Hx. by rewrite P2, P1.
Qed.

(** [bind] where the continuation is framed only for the results [m] can give. *)
Lemma frame_bind_post {A B} (S : N -> Prop) (P : A -> Prop) (m : M A) (k : A -> M B) :
  frame S m -> (forall w a w', m w = Some (a, w') -> P a) -> (forall a, P a -> frame S (k a)) ->
  frame S (bind m k).
Proof.
  intros Hm Hp Hk w b w2. unfold bind. destruct (m w) as [[a w1]|] eqn:E1; [|discriminate].
  intros H2. destruct (Hm _ _ _ E1) as [X1 P1]. destruct (Hk a (Hp _ _ _ E1) _ _ _ H2) as [X2 P2].
  split; [by eapply extends_trans|]. intros x Hx. by rewrite P2, P1.
Qed.

Lemma frame_ret {A} (S : N -> Prop) (a : A) : frame S (ret a).
Proof. intros w b w' H. injection H as <- <-. split; [apply extends_refl | done]. Qed.

Lemma frame_diverge {A} (S : N -> Prop) : frame S (@diverge A).
Proof. intros w a w' H. discriminate. Qed.

Lemma frame_mono {A} (S S' : N -> Prop) (m : M A) : (forall x, S x -> S' x) -> frame S m -> frame S' m.
Proof.
  intros HS Hm w a w' H. destruct (Hm _ _ _ H) as [X P]. split; [done|].
  intros x Hx. apply P. intros Hs. apply Hx, HS, Hs.
Qed.

Lemma frame_quiet {A} (S : N -> Prop) (m : M A) :
  (forall w a w', m w = Some (a, w') -> unchanged w w') -> frame S m.
Proof.
  intros H w a w' Hm. destruct (H _ _ _ Hm) as (H1 & H2 & H3). split.
  - split; [rewrite H3; lia | intros l _; by rewrite H1].
  - intros x _. unfold props_of. by rewrite H2.
Qed.

Ltac frame_prim :=
  apply frame_quiet; intros ? ? ? Hq;
  unfold log, sleep, read_flag, service_plane, root_children in Hq;
  injection Hq as <- <-; repeat split.

Lemma alloc_after_extends (E : env) (o : obj) (w : world) : extends w (alloc_after E o w).
Proof. unfold alloc_after. destruct (e_alloc_fails E (w_nalloc w)); [apply extends_bump | apply extends_put_obj]. Qed.

Lemma update_after_extends (E : env) (n : N) (w : world) : extends w (update_after E n w).
Proof.
  unfold update_after.
  assert (X2 : extends w (alloc_after E (OString "Internal.icns") (alloc_after E (OString "Internal") w)))
    by (eapply extends_trans; apply alloc_after_extends).
  destruct (_ || _); [exact X2|].
  eapply extends_trans; [|apply (proj1 (builtin_after_extends _ _ _))].
  eapply extends_trans; [|apply (proj1 (proto_after_extends _ _ _ _))].
  eapply extends_trans; [|apply (proj1 (icon_after_extends _ _ _ _))].
  eapply extends_trans; [exact X2 | apply extends_put_prop].
Qed.

Lemma update_after_props_ne (E : env) (n m : N) (w : world) :
  m <> n -> props_of (update_after E n w) m = props_of w m.
Proof.
  intros Hm. unfold update_after. destruct (_ || _).
  - unfold props_of. by rewrite !props_alloc_after.
  - rewrite builtin_after_props_ne, proto_after_props_ne, icon_after_props_ne by done.
    rewrite props_of_put_prop. case_decide; [congruence|].
    unfold props_of. by rewrite !props_alloc_after.
Qed.

Lemma update_after_get (E : env) (n : N) (w : world) (k : string) :
  k <> PIL -> k <> "IOMediaIcon" -> k <> "Protocol Characteristics" -> k <> "built-in" ->
  dict_get (props_of (update_after E n w) n) k = dict_get (props_of w n) k.
Proof.
  intros H1 H2 H3 H4. unfold update_after. destruct (_ || _).
  - unfold props_of. by rewrite !props_alloc_after.
  - rewrite builtin_after_get, proto_after_get, icon_after_get by (by apply String.eqb_neq).
    rewrite get_put_prop. apply String.eqb_neq in H1. rewrite H1.
    unfold props_of. by rewrite !props_alloc_after.
Qed.

Lemma builtin_after_props_same (E : env) (n : N) (w : world) :
  e_alloc_fails E (w_nalloc w) = true -> w_props (builtin_after E n w) = w_props w.
Proof. intros H. unfold builtin_after. by rewrite H. Qed.

Lemma frame_update (E : env) (n : N) : frame (fun x => x = n) (updateOtherProperties E n).
Proof.
  intros w a w' H. rewrite updateOtherProperties_after in H. injection H as <- <-.
  split; [apply update_after_extends|]. intros x Hx. by apply update_after_props_ne.
Qed.

Lemma frame_setBuiltIn (E : env) (n : N) : frame (fun x => x = n) (setBuiltIn E n).
Proof.
  intros w a w' H. rewrite setBuiltIn_eq in H. injection H as <- <-.
  split; [apply (proj1 (builtin_after_extends _ _ _))|]. intros x Hx. by apply builtin_after_props_ne.
Qed.

Lemma frame_wait_flag (E : env) (S : N -> Prop) (n : N) (key : string) (k : nat) :
  frame S (wait_flag E n key k).
Proof.
  induction k as [|k IH]; cbn [wait_flag]; (apply frame_bind; [frame_prim|]); intros b;
    destruct b; try apply frame_ret.
  apply frame_bind; [frame_prim | intros _; exact IH].
Qed.

Lemma frame_wait_forever (E : env) (S : N -> Prop) (spin : nat) (n : N) (key : string) :
  frame S (wait_forever E spin n key).
Proof.
  induction spin as [|s IH]; cbn [wait_forever]; (apply frame_bind; [frame_prim|]); intros b;
    destruct b; try apply frame_ret; [apply frame_diverge|].
  apply frame_bind; [frame_prim | intros _; exact IH].
Qed.

Lemma frame_update_drivers (E : env) (n : N) (ds : list N) :
  frame (fun x => In x ds) (update_drivers E n ds).
Proof.
  induction ds as [|d r IH]; cbn [update_drivers]; [apply frame_ret|].
  apply frame_bind.
  - destruct (N.eqb d n); [apply frame_ret|].
    eapply frame_mono; [|apply frame_update]. intros x ->. by left.
  - intros _. eapply frame_mono; [|exact IH]. intros x Hx. by right.
Qed.

Lemma frame_pass_loop (E : env) (n : N) (rem pass : nat) : frame (annot_touch E n) (pass_loop E n rem pass).
Proof.
  revert pass; induction rem as [|r IH]; intros pass; cbn [pass_loop]; [apply frame_ret|].
  apply frame_bind; [|intros _; apply IH].
  unfold pass_body. apply frame_bind.
  { eapply frame_mono; [|apply frame_update]. intros x ->. by left. }
  intros _.
  apply (frame_bind_post _ (fun ds => forall x, In x ds -> exists t, In x (e_svc E n t))).
  - frame_prim.
  - intros w ds w' Hq. unfold service_plane in Hq. injection Hq as <- _. intros x Hx. by exists (w_clock w).
  - intros ds Hds. apply frame_bind.
    + eapply frame_mono; [|apply frame_update_drivers]. intros x Hx. right. by apply Hds.
    + intros _. destruct (Nat.ltb pass 2); [frame_prim | apply frame_ret].
Qed.

Lemma frame_internalize (E : env) (n : N) : frame (annot_touch E n) (internalizeDevice E n).
Proof.
  unfold internalizeDevice. apply frame_bind; [frame_prim|]. intros _.
  apply frame_bind; [eapply frame_mono; [|apply frame_setBuiltIn]; intros x ->; by left|]. intros _.
  apply frame_bind; [apply frame_wait_flag|]. intros t.
  destruct (t <=? 0)%Z; [apply frame_ret | apply frame_pass_loop].
Qed.

Lemma in_subtrees_self (c : dtree) : In c (dt_subtrees c).
Proof. destruct c. by left. Qed.

Lemma frame_walk (E : env) (ks : list dtree) :
  Forall (fun c => frame (walk_touch E (dt_kids c)) (recurseBridge E c)) ks ->
  frame (walk_touch E ks) (walk_list E ks).
Proof.
  induction 1 as [|c cs Hc _ IH]; cbn [walk_list]; [apply frame_ret|].
  apply frame_bind.
  - intros w a w' H. rewrite visit_eq in H.
    assert (Hsub : forall x, walk_touch E (dt_kids c) x -> walk_touch E (c :: cs) x).
    { intros x [(c' & Hc' & Hx)|Hs]; [left|by right]. exists c'. split; [|done].
      cbn [flat_map]. apply in_or_app. left. destruct c as [id kids]. by right. }
    destruct (class_code_of w (dt_id c)) as [k|]; [|injection H as <- <-; split; [apply extends_refl|done]].
    destruct (is_storage k).
    + revert w a w' H. apply (frame_mono (annot_touch E (dt_id c))); [|apply frame_internalize].
      intros x [->|(t & Ht)]; [left | right; by exists (dt_id c), t].
      exists c. split; [|done]. cbn [flat_map]. apply in_or_app. left. apply in_subtrees_self.
    + destruct (Z.eqb k PCIBridge); [|injection H as <- <-; split; [apply extends_refl|done]].
      revert w a w' H. apply frame_bind; [apply frame_wait_flag|]. intros t.
      destruct (0 <? t)%Z; [|apply frame_ret]. eapply frame_mono; [exact Hsub | exact Hc].
  - intros _. eapply frame_mono; [|exact IH].
    intros x [(c' & Hc' & Hx)|Hs]; [left|by right]. exists c'. split; [|done].
    cbn [flat_map]. apply in_or_app. by right.
Qed.

Lemma frame_recurseBridge (E : env) (t : dtree) : frame (walk_touch E (dt_kids t)) (recurseBridge E t).
Proof.
  induction t as [id kids Hkids] using dtree_ind'.
  rewrite recurseBridge_eq. apply frame_bind; [frame_prim|]. intros _.
  by apply frame_walk.
Qed.

Lemma frame_scan_root (E : env) (spin : nat) (ks : list dtree) :
  (forall c, In c ks -> exists t, In c (e_root E t)) ->
  forall ready found, frame (root_touch E) (scan_root E spin ready found ks).
Proof.
  induction ks as [|c cs IH]; intros Hks ready found; cbn [scan_root]; [apply frame_ret|].
  assert (IH' := IH (fun c' Hc' => Hks c' (or_intror Hc'))).
  destruct (is_pc_name _); [|apply IH'].
  destruct ready.
  - apply frame_bind; [frame_prim|]. intros _.
    apply frame_bind; [apply frame_wait_forever|]. intros _.
    apply frame_bind; [|intros _; apply IH'].
    eapply frame_mono; [|apply frame_recurseBridge].
    destruct (Hks c (or_introl eq_refl)) as [t Ht].
    intros x [(c' & Hc' & Hx)|Hs]; [left|by right]. by exists t, c, c'.
  - apply frame_bind; [frame_prim | intros _; apply frame_ret].
Qed.

Lemma frame_root_loop (E : env) (spin fuel : nat) :
  forall r ready found, frame (root_touch E) (root_loop E spin fuel r ready found).
Proof.
  induction fuel as [|f IH]; intros r ready found; intros w a w' H; rewrite root_loop_unfold in H;
    revert w a w' H;
    (apply (frame_bind_post _ (fun ks => forall c, In c ks -> exists t, In c (e_root E t)));
      [frame_prim | intros w ks w' Hq; injection Hq as <- _; intros c Hc; by exists (w_clock w)|]);
    intros ks Hks; (apply frame_bind; [by apply frame_scan_root|]); intros rf;
    (destruct (_ && _)%bool; [|apply frame_ret]); [apply frame_ret | apply IH].
Qed.

Lemma frame_start (E : env) (spin : nat) (ok : bool) : frame (root_touch E) (start E spin ok).
Proof.
  unfold start. destruct ok; [|apply frame_ret].
  apply frame_bind; [unfold processRoot; exact (frame_root_loop E spin (N.to_nat ceiling) 0 false false)|].
  intros _. apply frame_bind; [frame_prim | intros _; apply frame_ret].
Qed.

(** ** Frame theorems *)

(** [updateOtherProperties], whichever allocations fail: it returns, no
    object that existed before is modified (dictionaries are copied, not
    changed in place), no other node is written, and on the node only the
    interconnect location, [IOMediaIcon], [Protocol Characteristics] and
    [built-in] may change. *)
Theorem update_properties_frame (E : env) (n : N) (w : world) :
  exists w', updateOtherProperties E n w = Some (tt, w') /\
    (forall l, (l < w_nalloc w)%N -> w_heap w' !! l = w_heap w !! l) /\
    (forall m, m <> n -> props_of w' m = props_of w m) /\
    (forall k, k <> PIL -> k <> "IOMediaIcon" -> k <> "Protocol Characteristics" -> k <> "built-in" ->
       dict_get (props_of w' n) k = dict_get (props_of w n) k).
Proof.
  exists (update_after E n w). split; [apply updateOtherProperties_after|].
  split; [apply update_after_extends|]. split.
  - intros m Hm. by apply update_after_props_ne.
  - intros k H1 H2 H3 H4. by apply update_after_get.
Qed.

(** [setBuiltIn]: it returns, modifies no existing object and no other
    node or key; when the allocation succeeds, [built-in] refers to a new
    one-byte blob [01]; when it fails, no property changes. *)
Theorem setBuiltIn_postcondition (E : env) (n : N) (w : world) :
  exists w', setBuiltIn E n w = Some (tt, w') /\
    (forall l, (l < w_nalloc w)%N -> w_heap w' !! l = w_heap w !! l) /\
    (forall m, m <> n -> props_of w' m = props_of w m) /\
    (forall k, k <> "built-in" -> dict_get (props_of w' n) k = dict_get (props_of w n) k) /\
    (e_alloc_fails E (w_nalloc w) = false -> exists lb, (w_nalloc w <= lb)%N /\
       w_heap w' !! lb = Some (OData [1%Z]) /\ dict_get (props_of w' n) "built-in" = Some lb) /\
    (e_alloc_fails E (w_nalloc w) = true -> w_props w' = w_props w).
Proof.
  exists (builtin_after E n w). split; [apply setBuiltIn_eq|].
  split; [apply (proj1 (builtin_after_extends _ _ _))|]. split; [intros m Hm; by apply builtin_after_props_ne|].
  split; [intros k Hk; apply builtin_after_get; by apply String.eqb_neq|]. split.
  - intros Hok. exists (w_nalloc w). split; [lia|]. unfold builtin_after. rewrite Hok. split.
    + cbn. by rewrite lookup_insert_eq.
    + rewrite get_put_prop. done.
  - apply builtin_after_props_same.
Qed.

(** [internalizeDevice]: it returns, modifies no existing object, and
    writes no node other than [n] and the entries its service-plane
    enumerations list. *)
Theorem internalize_frame (E : env) (n : N) (w : world) :
  exists w', internalizeDevice E n w = Some (tt, w') /\
    (forall l, (l < w_nalloc w)%N -> w_heap w' !! l = w_heap w !! l) /\
    (forall m, m <> n -> (forall t, ~ In m (e_svc E n t)) -> props_of w' m = props_of w m).
Proof.
  destruct (internalizeDevice_total E n w) as ([] & w' & H). exists w'. split; [done|].
  destruct (frame_internalize E n w tt w' H) as [[_ Hh] Hp]. split; [exact Hh|].
  intros m Hm Hs. apply Hp. intros [Hx|(t & Ht)]; [done | exact (Hs t Ht)].
Qed.

(** [recurseBridge]: it returns, modifies no existing object, and writes
    no node that is neither a strict descendant of the bridge nor listed by
    some service-plane enumeration. *)
Theorem walker_frame (E : env) (t : dtree) (w : world) :
  exists w', recurseBridge E t w = Some (tt, w') /\
    (forall l, (l < w_nalloc w)%N -> w_heap w' !! l = w_heap w !! l) /\
    (forall m, (forall c, In c (strict_subtrees t) -> dt_id c <> m) ->
       (forall y s, ~ In m (e_svc E y s)) -> props_of w' m = props_of w m).
Proof.
  destruct (recurseBridge_total E t w) as ([] & w' & H). exists w'. split; [done|].
  destruct (frame_recurseBridge E t w tt w' H) as [[_ Hh] Hp]. split; [exact Hh|].
  intros m H1 H2. apply Hp. intros [(c & Hc & Hx)|(y & s & Hs)]; [exact (H1 c Hc Hx) | exact (H2 y s Hs)].
Qed.

(** [start], whenever it returns: no existing object is modified, and no
    node is written that is neither a strict descendant of a child of "/"
    nor listed by some service-plane enumeration (the bus roots themselves
    are never written). *)
Theorem driver_start_frame (E : env) (spin : nat) (ok : bool) (w : world) (b : bool) (w' : world) :
  start E spin ok w = Some (b, w') ->
  (forall l, (l < w_nalloc w)%N -> w_heap w' !! l = w_heap w !! l) /\
  (forall m, (forall t c c', In c (e_root E t) -> In c' (strict_subtrees c) -> dt_id c' <> m) ->
     (forall y s, ~ In m (e_svc E y s)) -> props_of w' m = props_of w m).
Proof.
  intros H. destruct (frame_start E spin ok w b w' H) as [[_ Hh] Hp]. split; [exact Hh|].
  intros m H1 H2. apply Hp.
  intros [(t & c & c' & Hc & Hc' & Hx)|(y & s & Hs)]; [exact (H1 t c c' Hc Hc' Hx) | exact (H2 y s Hs)].
Qed.

Lemma driver_start_frame_witness :
  exists w', start sample_env_nosvc 0 true sample_world = Some (true, w') /\
    props_of w' 1 = props_of sample_world 1 /\
    forall l, (l < w_nalloc sample_world)%N -> w_heap w' !! l = w_heap sample_world !! l.
Proof.
  destruct (processRoot_two_scans sample_env_nosvc 0 sample_roots sample_world) as (w1 & s & H1 & _ & _);
    [intros t; reflexivity | vm_compute; reflexivity | intros c _ _ t; reflexivity|].
  assert (Hs : start sample_env_nosvc 0 true sample_world =
    Some (true, mkWorld (w_heap w1) (w_props w1) (w_nalloc w1) (w_clock w1) (w_trace w1 ++ [ERegister]))).
  { unfold start. unfold bind at 1. rewrite H1. reflexivity. }
  eexists. split; [exact Hs|].
  destruct (driver_start_frame sample_env_nosvc 0 true sample_world true _ Hs) as [Hh Hp].
  split; [|exact Hh]. apply Hp.
  - intros t c c' Hc Hc'. cbn in Hc.
    destruct Hc as [<-|[<-|[]]]; cbn in Hc'; repeat destruct Hc' as [<-|Hc']; try contradiction; discriminate.
  - intros y s' [].
Defined.

Lemma class_code_of_unchanged (w w' : world) (m : N) :
  unchanged w w' -> class_code_of w' m = class_code_of w m.
Proof. intros (H1 & H2 & _). unfold class_code_of, props_of. by rewrite H1, H2. Qed.

Lemma unchanged_refl (w : world) : unchanged w w.
Proof. repeat split. Qed.

Lemma unchanged_trans (w1 w2 w3 : world) : unchanged w1 w2 -> unchanged w2 w3 -> unchanged w1 w3.
Proof. intros (A1 & B1 & C1) (A2 & B2 & C2). repeat split; congruence. Qed.

Lemma no_storage_unchanged (w w' : world) (cs : list dtree) :
  unchanged w w' -> no_storage w cs -> no_storage w' cs.
Proof. intros U H c Hc k Hk. rewrite (class_code_of_unchanged w w' _ U) in Hk. exact (H c Hc k Hk). Qed.

Lemma no_storage_app (w : world) (l1 l2 : list dtree) :
  no_storage w (l1 ++ l2) -> no_storage w l1 /\ no_storage w l2.
Proof. intros H. split; intros c Hc; apply H, in_or_app; auto. Qed.

Lemma wait_flag_unchanged (E : env) (n : N) (key : string) (k : nat) (w : world) :
  exists r w', wait_flag E n key k w = Some (r, w') /\ unchanged w w'.
Proof.
  destruct (wait_flag_cases E n key k w) as [(j & _ & _ & _ & H)|(_ & H)];
    eexists _, _; (split; [exact H|]); repeat split.
Qed.

Lemma bind_Some {A B} (m : M A) (k : A -> M B) (w w1 : world) (a : A) :
  m w = Some (a, w1) -> bind m k w = k a w1.
Proof. intros H. unfold bind. by rewrite H. Qed.

Lemma walk_quiet (E : env) (ks : list dtree) :
  Forall (fun c => forall w, no_storage w (strict_subtrees c) ->
            exists w', recurseBridge E c w = Some (tt, w') /\ unchanged w w') ks ->
  forall w, no_storage w (flat_map dt_subtrees ks) ->
  exists w', walk_list E ks w = Some (tt, w') /\ unchanged w w'.
Proof.
  induction 1 as [|c cs Hc _ IH]; intros w Hns; [exists w; split; [done | apply unchanged_refl]|].
  cbn [flat_map] in Hns. apply no_storage_app in Hns as [Hc1 Hcs].
  assert (Hv : exists w2, visit E c w = Some (tt, w2) /\ unchanged w w2).
  { rewrite visit_eq. destruct (class_code_of w (dt_id c)) as [k|] eqn:Hk;
      [|exists w; split; [done | apply unchanged_refl]].
    rewrite (Hc1 c ltac:(apply in_subtrees_self) k Hk).
    destruct (Z.eqb k PCIBridge); [|exists w; split; [done | apply unchanged_refl]].
    destruct (wait_flag_unchanged E (dt_id c) "IOPCIConfigured" 1000 w) as (r & w1 & Hw & U1).
    rewrite (bind_Some _ _ _ _ _ Hw). destruct (0 <? r)%Z; [|exists w1; split; [done | exact U1]].
    destruct (Hc w1) as (w2 & H2 & U2).
    { apply (no_storage_unchanged w); [exact U1|]. intros c' Hc'. apply Hc1.
      destruct c as [id kids]. by right. }
    exists w2. split; [exact H2 | exact (unchanged_trans _ _ _ U1 U2)]. }
  destruct Hv as (w2 & Hv & U2). cbn [walk_list]. rewrite (bind_Some _ _ _ _ _ Hv).
  destruct (IH w2 (no_storage_unchanged _ _ _ U2 Hcs)) as (w3 & H3 & U3).
  exists w3. split; [exact H3 | exact (unchanged_trans _ _ _ U2 U3)].
Qed.

(** [recurseBridge] on a bridge with no storage device below it (no
    strict descendant carries a SATA, NVMe or RAID class code) writes
    nothing: heap, property tables and allocations are as before; it only
    logs and sleeps. *)
Theorem walker_quiet (E : env) (t : dtree) (w : world) :
  no_storage w (strict_subtrees t) ->
  exists w', recurseBridge E t w = Some (tt, w') /\ unchanged w w'.
Proof.
  revert w. induction t as [id kids Hkids] using dtree_ind'. intros w Hns.
  rewrite recurseBridge_eq.
  set (w1 := mkWorld (w_heap w) (w_props w) (w_nalloc w) (w_clock w) (w_trace w ++ [EWalk id])).
  assert (U1 : unchanged w w1) by (repeat split).
  rewrite (bind_Some (log (EWalk id)) (fun _ => walk_list E kids) w w1 tt eq_refl).
  destruct (walk_quiet E kids Hkids w1 (no_storage_unchanged _ _ _ U1 Hns)) as (w2 & H2 & U2).
  exists w2. split; [exact H2 | exact (unchanged_trans _ _ _ U1 U2)].
Qed.

Lemma walker_quiet_witness :
  exists w', recurseBridge (sample_env 0 0 sample_roots) (DNode 2 [DNode 4 [DNode 6 []]]) sample_world =
    Some (tt, w') /\ unchanged sample_world w'.
Proof.
  apply walker_quiet. intros c Hc k Hk. cbn in Hc.
  destruct Hc as [<-|[<-|[]]]; vm_compute in Hk; try discriminate.
  injection Hk as <-. vm_compute. reflexivity.
Defined.

(** ** The walker's annotation order *)

Lemma internalized_app (t1 t2 : list event) : internalized (t1 ++ t2) = (internalized t1 ++ internalized t2)%list.
Proof. induction t1 as [|[] r IH]; cbn; rewrite ?IH; done. Qed.

Lemma dfs_storage_eq (w : world) (id : N) (kids : list dtree) :
  dfs_storage w (DNode id kids) = flat_map (dfs_visit w) kids.
Proof. reflexivity. Qed.

Lemma keeps_codes_refl (w : world) : keeps_codes w w.
Proof. split; [apply extends_refl | done]. Qed.

Lemma keeps_codes_trans (w1 w2 w3 : world) : keeps_codes w1 w2 -> keeps_codes w2 w3 -> keeps_codes w1 w3.
Proof.
  intros [X1 P1] [X2 P2]. split; [by eapply extends_trans|]. intros m. by rewrite P2, P1.
Qed.

Lemma no_annot_trans (w1 w2 w3 : world) : no_annot w1 w2 -> no_annot w2 w3 -> no_annot w1 w3.
Proof.
  intros [K1 (s1 & T1 & I1)] [K2 (s2 & T2 & I2)]. split; [by eapply keeps_codes_trans|].
  exists (s1 ++ s2)%list. rewrite T2, T1, app_assoc, internalized_app, I1, I2. done.
Qed.

Lemma holds_bind_na {A B} (m : M A) (k : A -> M B) :
  holds no_annot m -> (forall a, holds no_annot (k a)) -> holds no_annot (bind m k).
Proof.
  intros Hm Hk w b w2. unfold bind. destruct (m w) as [[a w1]|] eqn:E1; [|discriminate].
  intros H2. exact (no_annot_trans _ _ _ (Hm _ _ _ E1) (Hk a _ _ _ H2)).
Qed.

Lemma holds_ret_na {A} (a : A) : holds no_annot (ret a).
Proof.
  intros w b w' H. injection H as <- <-. split; [apply keeps_codes_refl|].
  exists []. by rewrite app_nil_r.
Qed.

Lemma holds_quiet_na {A} (m : M A) :
  (forall w a w', m w = Some (a, w') -> unchanged w w' /\
     exists s, w_trace w' = (w_trace w ++ s)%list /\ internalized s = []) -> holds no_annot m.
Proof.
  intros H w a w' Hm. destruct (H _ _ _ Hm) as [(H1 & H2 & H3) Ht]. split; [|exact Ht]. split.
  - split; [rewrite H3; lia | intros l _; by rewrite H1].
  - intros x. unfold props_of. by rewrite H2.
Qed.

Ltac na_prim :=
  apply holds_quiet_na; intros ? ? ? Hq;
  unfold log, sleep, read_flag, service_plane in Hq;
  injection Hq as <- <-; (split; [repeat split|]);
  first [ exists []; rewrite app_nil_r; split; reflexivity | eexists; split; reflexivity ].

Lemma holds_na_update (E : env) (n : N) : holds no_annot (updateOtherProperties E n).
Proof.
  intros w a w' H. rewrite updateOtherProperties_after in H. injection H as <- <-. split.
  - split; [apply update_after_extends|]. intros m. destruct (decide (m = n)) as [->|Hm].
    + apply update_after_get; discriminate.
    + by rewrite update_after_props_ne.
  - exists []. by rewrite trace_update_after, app_nil_r.
Qed.

Lemma holds_na_setBuiltIn (E : env) (n : N) : holds no_annot (setBuiltIn E n).
Proof.
  intros w a w' H. rewrite setBuiltIn_eq in H. injection H as <- <-. split.
  - split; [apply (proj1 (builtin_after_extends _ _ _))|]. intros m. destruct (decide (m = n)) as [->|Hm].
    + by apply builtin_after_get.
    + by rewrite builtin_after_props_ne.
  - exists []. rewrite app_nil_r. split; [|done].
    by destruct (builtin_after_cases E n w) as [->|(_ & ->)].
Qed.

Lemma holds_na_wait_flag (E : env) (n : N) (key : string) (k : nat) : holds no_annot (wait_flag E n key k).
Proof.
  induction k as [|k IH]; cbn [wait_flag]; (apply holds_bind_na; [na_prim|]); intros b;
    destruct b; try apply holds_ret_na.
  apply holds_bind_na; [na_prim | intros _; exact IH].
Qed.

Lemma holds_na_update_drivers (E : env) (n : N) (ds : list N) : holds no_annot (update_drivers E n ds).
Proof.
  induction ds as [|d r IH]; cbn [update_drivers]; [apply holds_ret_na|].
  apply holds_bind_na; [|intros _; exact IH].
  destruct (N.eqb d n); [apply holds_ret_na | apply holds_na_update].
Qed.

Lemma holds_na_pass_loop (E : env) (n : N) (rem pass : nat) : holds no_annot (pass_loop E n rem pass).
Proof.
  revert pass; induction rem as [|r IH]; intros pass; cbn [pass_loop]; [apply holds_ret_na|].
  apply holds_bind_na; [|intros _; apply IH].
  unfold pass_body. apply holds_bind_na; [apply holds_na_update|]. intros _.
  apply holds_bind_na; [na_prim|]. intros ds.
  apply holds_bind_na; [apply holds_na_update_drivers|]. intros _.
  destruct (Nat.ltb pass 2); [na_prim | apply holds_ret_na].
Qed.

(** The annotator logs its node once and annotates nothing else. *)
Lemma internalize_annot (E : env) (n : N) (w w' : world) :
  internalizeDevice E n w = Some (tt, w') ->
  keeps_codes w w' /\ exists s, w_trace w' = (w_trace w ++ EInternalize n :: s)%list /\ internalized s = [].
Proof.
  intros H. unfold internalizeDevice in H.
  set (w1 := mkWorld (w_heap w) (w_props w) (w_nalloc w) (w_clock w) (w_trace w ++ [EInternalize n])) in H.
  rewrite (bind_Some (log (EInternalize n)) _ w w1 tt eq_refl) in H.
  assert (Hr : holds no_annot (do _ <- setBuiltIn E n; do timeout <- wait_flag E n "IOPCIResourced" 2000;
                                 if (timeout <=? 0)%Z then ret tt else pass_loop E n 3 0)).
  { apply holds_bind_na; [apply holds_na_setBuiltIn|]. intros _.
    apply holds_bind_na; [apply holds_na_wait_flag|]. intros t.
    destruct (t <=? 0)%Z; [apply holds_ret_na | apply holds_na_pass_loop]. }
  destruct (Hr _ _ _ H) as [[[X1 X2] K] (s & T & I)]. split.
  - split; [|exact K]. split; [cbn in X1; exact X1|]. intros l Hl. apply X2. exact Hl.
  - exists s. split; [|exact I]. rewrite T. cbn [w1 w_trace]. by rewrite <- app_assoc.
Qed.

Lemma class_code_keep (w0 w1 : world) (m : N) :
  wf w0 -> keeps_codes w0 w1 -> class_code_of w1 m = class_code_of w0 m.
Proof.
  intros (_ & _ & Hp) [[_ Hh] K]. unfold class_code_of. rewrite K.
  destruct (dict_get (props_of w0 m) "class-code") as [l|] eqn:Hg; [|done].
  rewrite Hh; [done|]. exact (Hp m _ _ (dict_get_In _ _ _ Hg)).
Qed.

Lemma wait_flag_ready (E : env) (n : N) (key : string) (k : nat) (w : world) :
  e_flag E n key (w_clock w) = true -> wait_flag E n key k w = Some (Z.of_nat k, w).
Proof. intros H. destruct k; cbn [wait_flag]; unfold bind, read_flag; rewrite H; done. Qed.

Lemma walk_order (E : env) (w0 : world) (Hwf : wf w0) (ks : list dtree) :
  Forall (fun c => forall w1, keeps_codes w0 w1 -> bridges_ready E w0 (strict_subtrees c) ->
            exists w2 s, recurseBridge E c w1 = Some (tt, w2) /\ keeps_codes w1 w2 /\
              w_trace w2 = (w_trace w1 ++ s)%list /\ internalized s = dfs_storage w0 c) ks ->
  forall w1, keeps_codes w0 w1 -> bridges_ready E w0 (flat_map dt_subtrees ks) ->
  exists w2 s, walk_list E ks w1 = Some (tt, w2) /\ keeps_codes w1 w2 /\
    w_trace w2 = (w_trace w1 ++ s)%list /\ internalized s = flat_map (dfs_visit w0) ks.
Proof.
  induction 1 as [|c cs Hc _ IH]; intros w1 K1 Hbr.
  { exists w1, []. split; [done|]. split; [apply keeps_codes_refl|]. by rewrite app_nil_r. }
  assert (Hbc : bridges_ready E w0 (dt_subtrees c))
    by (intros c' Hc'; apply Hbr; cbn [flat_map]; apply in_or_app; by left).
  assert (Hbs : bridges_ready E w0 (flat_map dt_subtrees cs))
    by (intros c' Hc'; apply Hbr; cbn [flat_map]; apply in_or_app; by right).
  assert (Hv : exists w2 s, visit E c w1 = Some (tt, w2) /\ keeps_codes w1 w2 /\
                 w_trace w2 = (w_trace w1 ++ s)%list /\ internalized s = dfs_visit w0 c).
  { rewrite visit_eq, (class_code_keep w0 w1 _ Hwf K1). unfold dfs_visit.
    destruct (class_code_of w0 (dt_id c)) as [k|] eqn:Hk;
      [|exists w1, []; split; [done|]; split; [apply keeps_codes_refl|]; by rewrite app_nil_r].
    destruct (is_storage k).
    - destruct (internalizeDevice_total E (dt_id c) w1) as ([] & w2 & H2).
      destruct (internalize_annot E (dt_id c) w1 w2 H2) as [K2 (s & T & I)].
      exists w2, (EInternalize (dt_id c) :: s). split; [done|]. split; [done|]. split; [done|].
      cbn. by rewrite I.
    - destruct (Z.eqb_spec k PCIBridge) as [->|];
        [|exists w1, []; split; [done|]; split; [apply keeps_codes_refl|]; by rewrite app_nil_r].
      rewrite (bind_Some _ _ w1 w1 (Z.of_nat 1000)) by (apply wait_flag_ready, (Hbc c); [apply in_subtrees_self | done]).
      cbn [Z.ltb Z.compare Z.of_nat].
      apply Hc; [exact K1|]. intros c' Hc'. apply Hbc. destruct c as [id kids]. by right. }
  destruct Hv as (w2 & s1 & Hv & K2 & T2 & I2).
  destruct (IH w2 (keeps_codes_trans _ _ _ K1 K2) Hbs) as (w3 & s2 & H3 & K3 & T3 & I3).
  exists w3, (s1 ++ s2)%list. cbn [walk_list]. rewrite (bind_Some _ _ _ _ _ Hv).
  split; [exact H3|]. split; [exact (keeps_codes_trans _ _ _ K2 K3)|]. split.
  - by rewrite T3, T2, app_assoc.
  - cbn [flat_map]. by rewrite internalized_app, I2, I3.
Qed.

(** [recurseBridge] in a well-formed world whose bridges below [t] are all
    configured: it annotates exactly the storage devices reachable through
    bridges, each once, in depth-first enumeration order (the annotations
    change no class code on the way). *)
Theorem walker_annotation_order (E : env) (t : dtree) (w : world) :
  wf w -> bridges_ready E w (strict_subtrees t) ->
  exists w' s, recurseBridge E t w = Some (tt, w') /\ w_trace w' = (w_trace w ++ s)%list /\
    internalized s = dfs_storage w t.
Proof.
  intros Hwf Hbr.
  enough (H : forall t w1, keeps_codes w w1 -> bridges_ready E w (strict_subtrees t) ->
            exists w2 s, recurseBridge E t w1 = Some (tt, w2) /\ keeps_codes w1 w2 /\
              w_trace w2 = (w_trace w1 ++ s)%list /\ internalized s = dfs_storage w t).
  { destruct (H t w (keeps_codes_refl w) Hbr) as (w' & s & H1 & _ & H2 & H3). by exists w', s. }
  clear t Hbr. intros t. induction t as [id kids Hkids] using dtree_ind'. intros w1 K1 Hbr.
  rewrite recurseBridge_eq.
  set (w2 := mkWorld (w_heap w1) (w_props w1) (w_nalloc w1) (w_clock w1) (w_trace w1 ++ [EWalk id])).
  assert (K2 : keeps_codes w1 w2) by (split; [split; [cbn; lia | done] | done]).
  rewrite (bind_Some (log (EWalk id)) (fun _ => walk_list E kids) w1 w2 tt eq_refl).
  destruct (walk_order E w Hwf kids Hkids w2 (keeps_codes_trans _ _ _ K1 K2) Hbr)
    as (w3 & s & H3 & K3 & T3 & I3).
  exists w3, (EWalk id :: s). split; [exact H3|]. split; [exact (keeps_codes_trans _ _ _ K2 K3)|].
  split; [rewrite T3; cbn [w2 w_trace]; by rewrite <- app_assoc|].
  cbn [internalized]. by rewrite I3, dfs_storage_eq.
Qed.

Lemma walker_annotation_order_witness :
  exists w' s, recurseBridge (sample_env 0 0 sample_roots) (DNode 2 [DNode 3 []; DNode 4 [DNode 5 []]])
                 sample_world = Some (tt, w') /\ w_trace w' = s /\ internalized s = [3%N; 5%N].
Proof.
  destruct (walker_annotation_order (sample_env 0 0 sample_roots) (DNode 2 [DNode 3 []; DNode 4 [DNode 5 []]])
              sample_world) as (w' & s & H1 & H2 & H3).
  - apply wf_check_sound. vm_compute. reflexivity.
  - intros c _ _ t. reflexivity.
  - exists w', s. split; [exact H1|]. split; [exact H2|]. rewrite H3. vm_compute. reflexivity.
Defined.

(** ** The annotator's effect by value *)

(** [internalizeDevice] in a well-formed world, every allocation
    succeeding, with the node's [IOPCIResourced] flag and service-plane
    enumeration constant over time: by value, the node gets [built-in] and
    then, if resourced, the property update (interconnect location, icon,
    protocol characteristics, [built-in]); each other entry its enumeration
    lists gets the property update; every other node reads as before. The
    world stays well formed. *)
Theorem internalize_effect (E : env) (n : N) (w : world) :
  wf w -> (forall k, e_alloc_fails E k = false) ->
  (forall t, e_flag E n "IOPCIResourced" t = e_flag E n "IOPCIResourced" 0) ->
  (forall t, e_svc E n t = e_svc E n 0) ->
  exists w', internalizeDevice E n w = Some (tt, w') /\ wf w' /\
    forall F m, pview F w' m =
      if e_flag E n "IOPCIResourced" 0 then
        (if N.eqb m n then update_view F (builtin_view F (pview F w m))
         else if existsb (N.eqb m) (List.filter (fun d => negb (N.eqb d n)) (e_svc E n 0))
         then update_view F (pview F w m) else pview F w m)
      else (if N.eqb m n then builtin_view F (pview F w m) else pview F w m).
Proof.
  intros Hwf Hok Hres Hsvc.
  destruct (internalize_view E n w Hwf Hok Hres Hsvc) as (w' & H1 & H2 & H3).
  exists w'. split; [exact H1|]. split; [exact H2|]. intros F m. rewrite H3. reflexivity.
Qed.

Lemma internalize_effect_witness :
  exists w', internalizeDevice (sample_env 0 0 sample_roots) 3 sample_world = Some (tt, w') /\ wf w' /\
    forall F, pview F w' 3 = update_view F (builtin_view F (pview F sample_world 3)) /\
              pview F w' 103 = update_view F (pview F sample_world 103) /\
              pview F w' 4 = pview F sample_world 4.
Proof.
  destruct (internalize_effect (sample_env 0 0 sample_roots) 3 sample_world) as (w' & H1 & H2 & H3).
  - apply wf_check_sound. vm_compute. reflexivity.
  - intros k. reflexivity.
  - intros t. reflexivity.
  - intros t. reflexivity.
  - exists w'. split; [exact H1|]. split; [exact H2|]. intros F. rewrite !H3. repeat split.
Defined.

(** C10 (timeout boundary).  Write check [i] for the poll made after [i]
    sleeps of 10 ms.  For a child with the bridge class code: if
    [IOPCIConfigured] is false at every check [i < 1000], the timeout
    branch is taken and [visit] ends after 1000 sleeps with no other effect
    (also when the flag is true at check 1000, made when the counter is
    already 0); if it is first seen true at a check [j < 1000], [visit]
    recurses into the bridge after [j] sleeps.  Likewise for
    [internalizeDevice] with [IOPCIResourced] and budget 2000: false at
    every check [i < 2000] gives the timeout branch (the world after the log
    and [setBuiltIn], plus 2000 sleeps, and nothing else); first seen true
    at a check [j < 2000] runs the three passes after [j] sleeps. *)
Theorem timeout_at_last_check (E : env) (c : dtree) (w : world) (n : N) (v : world) :
  class_code_of w (dt_id c) = Some PCIBridge ->
  ((forall i, i < 1000 -> e_flag E (dt_id c) "IOPCIConfigured" (w_clock w + 10 * i) = false) ->
   visit E c w = Some (tt, sleeps w 1000)) /\
  (forall j, j < 1000 ->
   (forall i, i < j -> e_flag E (dt_id c) "IOPCIConfigured" (w_clock w + 10 * i) = false) ->
   e_flag E (dt_id c) "IOPCIConfigured" (w_clock w + 10 * j) = true ->
   visit E c w = recurseBridge E c (sleeps w j)) /\
  ((forall i, i < 2000 -> e_flag E n "IOPCIResourced" (w_clock v + 10 * i) = false) ->
   internalizeDevice E n v =
     Some (tt, sleeps (builtin_after E n (mkWorld (w_heap v) (w_props v) (w_nalloc v) (w_clock v)
                                                 (w_trace v ++ [EInternalize n]))) 2000)) /\
  (forall j, j < 2000 ->
   (forall i, i < j -> e_flag E n "IOPCIResourced" (w_clock v + 10 * i) = false) ->
   e_flag E n "IOPCIResourced" (w_clock v + 10 * j) = true ->
   internalizeDevice E n v =
     pass_loop E n 3 0 (sleeps (builtin_after E n (mkWorld (w_heap v) (w_props v) (w_nalloc v) (w_clock v)
                                                          (w_trace v ++ [EInternalize n]))) j)).
Proof.
  intros Hc.
  set (v1 := builtin_after E n (mkWorld (w_heap v) (w_props v) (w_nalloc v) (w_clock v)
                                        (w_trace v ++ [EInternalize n]))).
  assert (Hv1 : w_clock v1 = w_clock v)
    by (unfold v1; by destruct (builtin_after_cases E n (mkWorld (w_heap v) (w_props v) (w_nalloc v)
          (w_clock v) (w_trace v ++ [EInternalize n]))) as [->|(_ & ->)]).
  assert (Hi : internalizeDevice E n v =
                 (do timeout <- wait_flag E n "IOPCIResourced" 2000;
                  if (timeout <=? 0)%Z then ret tt else pass_loop E n 3 0) v1).
  { unfold internalizeDevice. unfold bind at 1. unfold log. unfold bind at 1. rewrite setBuiltIn_eq. done. }
  split; [|split; [|split]].
  - intros Hb. rewrite visit_eq, Hc. cbn [is_storage]. rewrite Z.eqb_refl.
    destruct (e_flag E (dt_id c) "IOPCIConfigured" (w_clock w + 10 * 1000)) eqn:Hl.
    + rewrite (bind_Some _ _ _ _ _ (wait_flag_seen E (dt_id c) "IOPCIConfigured" 1000 1000 w
                                       ltac:(lia) Hb Hl)). done.
    + rewrite (bind_Some _ _ _ _ _ (wait_flag_timeout E (dt_id c) "IOPCIConfigured" 1000 w
         ltac:(intros i Hi'; destruct (Nat.eq_dec i 1000) as [->|]; [exact Hl | apply Hb; lia]))). done.
  - intros j Hj Hb Ht. rewrite visit_eq, Hc. cbn [is_storage]. rewrite Z.eqb_refl.
    rewrite (bind_Some _ _ _ _ _ (wait_flag_seen E (dt_id c) "IOPCIConfigured" 1000 j w ltac:(lia) Hb Ht)).
    assert (Hp : (0 <? Z.of_nat (1000 - j))%Z = true) by (apply Z.ltb_lt; lia).
    by rewrite Hp.
  - intros Hd. rewrite Hi. rewrite <- Hv1 in Hd.
    destruct (e_flag E n "IOPCIResourced" (w_clock v1 + 10 * 2000)) eqn:Hl.
    + rewrite (bind_Some _ _ _ _ _ (wait_flag_seen E n "IOPCIResourced" 2000 2000 v1 ltac:(lia) Hd Hl)). done.
    + rewrite (bind_Some _ _ _ _ _ (wait_flag_timeout E n "IOPCIResourced" 2000 v1
         ltac:(intros i Hi'; destruct (Nat.eq_dec i 2000) as [->|]; [exact Hl | apply Hd; lia]))). done.
  - intros j Hj Hd Ht. rewrite Hi. rewrite <- Hv1 in Hd, Ht.
    rewrite (bind_Some _ _ _ _ _ (wait_flag_seen E n "IOPCIResourced" 2000 j v1 ltac:(lia) Hd Ht)).
    assert (Hp : (Z.of_nat (2000 - j) <=? 0)%Z = false) by (apply Z.leb_gt; lia).
    by rewrite Hp.
Qed.

Lemma timeout_at_last_check_witness :
  visit (sample_env (10 * 1000) (10 * 2000) sample_roots) (DNode 4 [DNode 5 []]) sample_world =
    Some (tt, sleeps sample_world 1000) /\
  visit (sample_env 30 0 sample_roots) (DNode 4 [DNode 5 []]) sample_world =
    recurseBridge (sample_env 30 0 sample_roots) (DNode 4 [DNode 5 []]) (sleeps sample_world 3).
Proof.
  split.
  - apply (timeout_at_last_check (sample_env (10 * 1000) (10 * 2000) sample_roots)
             (DNode 4 [DNode 5 []]) sample_world 3 sample_world); [reflexivity|].
    intros i Hi. rewrite sample_flag_cfg, sample_clock. apply Nat.leb_gt. lia.
  - apply (timeout_at_last_check (sample_env 30 0 sample_roots)
             (DNode 4 [DNode 5 []]) sample_world 3 sample_world); [reflexivity | lia | |].
    + intros i Hi. rewrite sample_flag_cfg, sample_clock. apply Nat.leb_gt. lia.
    + rewrite sample_flag_cfg, sample_clock. reflexivity.
Defined.
